(** * A shallow embedding of [crawler.py]

    The crawler collects article URLs from the paginated news listing of
    one site, downloads the candidates, keeps the pages that look like
    text and numbers them, and finally writes an index of the kept pages.

    Python values are modelled as follows.
    - [str] is a list of Unicode code points ([N]); [len] is [length].
    - [None]-or-string values are [option str]; truthiness is [truthy].
    - A [set] of strings is a [gset str]; the order in which a [for] loop
      visits a set is left to an arbitrary enumeration ([set_iter]).
    - Libraries the program calls (BeautifulSoup, urllib.parse, requests)
      are interfaces: type classes for the parser and for URL handling, a
      history-dependent oracle for the network.
    - [print] and [time.sleep] have no effect on the values computed and
      are left out; file writes are assumed to succeed, and the library
      calls to return (a [ValueError] of [urllib.parse] on a malformed
      reference would abort the run). *)

From Stdlib Require Import NArith ZArith Lia Ascii String DecimalNat.
From stdpp Require Import base tactics option list gmap sets.

Local Open Scope N_scope.
Local Open Scope nat_scope.
Set Warnings "-clear-no-such-hyp,-abstract-large-number".

(** ** Python strings *)

Module PyStr.

(** A Python string: its code points. *)
Abbreviation str := (list N).

(** An ASCII literal of the source as a [str]. *)
Definition py (s : string) : str := map N_of_ascii (list_ascii_of_string s).

Definition TAB : str := [9%N].
Definition LF : str := [10%N].

(** [s.startswith(p)] *)
Fixpoint startswith (s p : str) : bool :=
  match p, s with
  | [], _ => true
  | _ :: _, [] => false
  | c :: p', d :: s' => (c =? d)%N && startswith s' p'
  end.

(** [s.endswith(p)] *)
Definition endswith (s p : str) : bool := startswith (rev s) (rev p).

(** [p in s] *)
Fixpoint contains (s p : str) : bool :=
  startswith s p ||
  match s with
  | [] => false
  | _ :: s' => contains s' p
  end.

(** [s == t] *)
Definition str_eqb (s t : str) : bool := bool_decide (s = t).

(** [c.lower()] on one code point: the ASCII capitals are mapped, every
    other code point is kept.  (Python also maps capitals outside ASCII;
    none of the patterns the crawler compares against is affected.) *)
Definition lower_cp (c : N) : N :=
  if ((65 <=? c) && (c <=? 90))%N then (c + 32)%N else c.

Definition lower (s : str) : str := map lower_cp s.

(** [str(n)] for a non-negative [int]. *)
Fixpoint uint_digits (d : Decimal.uint) : str :=
  match d with
  | Decimal.Nil => []
  | Decimal.D0 d => 48%N :: uint_digits d
  | Decimal.D1 d => 49%N :: uint_digits d
  | Decimal.D2 d => 50%N :: uint_digits d
  | Decimal.D3 d => 51%N :: uint_digits d
  | Decimal.D4 d => 52%N :: uint_digits d
  | Decimal.D5 d => 53%N :: uint_digits d
  | Decimal.D6 d => 54%N :: uint_digits d
  | Decimal.D7 d => 55%N :: uint_digits d
  | Decimal.D8 d => 56%N :: uint_digits d
  | Decimal.D9 d => 57%N :: uint_digits d
  end.

Definition str_of_nat (n : nat) : str := uint_digits (Nat.to_uint n).

(** [format(n, "04d")]: at least four digits, padded with zeros on the
    left. *)
Definition zfill (width : nat) (s : str) : str :=
  replicate (width - length s) 48%N ++ s.

Definition format_04d (n : nat) : str := zfill 4 (str_of_nat n).

(** Reading a decimal numeral back; [None] on a non-digit. *)
Fixpoint digits_uint (s : str) : option Decimal.uint :=
  match s with
  | [] => Some Decimal.Nil
  | c :: s' =>
    d ← digits_uint s';
    if (c =? 48)%N then Some (Decimal.D0 d)
    else if (c =? 49)%N then Some (Decimal.D1 d)
    else if (c =? 50)%N then Some (Decimal.D2 d)
    else if (c =? 51)%N then Some (Decimal.D3 d)
    else if (c =? 52)%N then Some (Decimal.D4 d)
    else if (c =? 53)%N then Some (Decimal.D5 d)
    else if (c =? 54)%N then Some (Decimal.D6 d)
    else if (c =? 55)%N then Some (Decimal.D7 d)
    else if (c =? 56)%N then Some (Decimal.D8 d)
    else if (c =? 57)%N then Some (Decimal.D9 d)
    else None
  end.

Definition nat_of_str (s : str) : option nat := Nat.of_uint <$> digits_uint s.

(** Number of line feeds in a text, that is the number of lines of a file
    whose last line is terminated. *)
Definition line_count (s : str) : nat := length (filter (λ c, c = 10%N) s).

(** Propositional counterparts of the tests above. *)
Definition has_infix (p s : str) : Prop := ∃ a b, s = a ++ p ++ b.

End PyStr.
Export PyStr.

(** ** Truthiness and exceptions *)

(** [bool(x)] for [x] that is [None] or a string. *)
Definition truthy (x : option str) : bool :=
  match x with
  | None => false
  | Some [] => false
  | Some (_ :: _) => true
  end.

Inductive exn := TypeError.

(** The outcome of a call that may raise. *)
Inductive result (A : Type) :=
  | Ok (a : A)
  | Raise (e : exn).
Arguments Ok {A} a.
Arguments Raise {A} e.

#[global] Instance result_ret : MRet result := λ A a, Ok a.
#[global] Instance result_bind : MBind result := λ A B k m,
  match m with
  | Ok a => k a
  | Raise e => Raise e
  end.

(** ** The libraries the crawler calls *)

(** The HTML parser ([BeautifulSoup] with the ['html.parser'] backend). *)
Class HtmlParser := {
  soup : Type;
  (** [BeautifulSoup(markup, 'html.parser')] for a string. *)
  bs_parse : str → soup;
  (** [[a['href'] for a in soup.find_all('a', href=True)]], in document
      order. *)
  find_all_a_href : soup → list str;
  (** [for tag in soup(names): tag.decompose()] *)
  decompose_all : list str → soup → soup;
  (** [soup.get_text(strip=True)] *)
  get_text_strip : soup → str
}.

(** [BeautifulSoup(None, ...)] raises [TypeError]. *)
Definition BeautifulSoup {parser : HtmlParser} (markup : option str) : result soup :=
  match markup with
  | None => Raise TypeError
  | Some s => Ok (bs_parse s)
  end.

(** [urllib.parse]. *)
Record ParseResult := {
  scheme : str;
  netloc : str;
  path : str;
  params : str;
  query : str;
  fragment : str
}.

Class UrlLib := {
  urljoin : str → str → str;
  urlparse : str → ParseResult
}.

(** [requests.get(url, headers=HEADERS, timeout=30)]: either the call
    raises a [requests.RequestException], or it returns a response with a
    status code and a body. *)
Inductive request_failure := ConnectionError | Timeout | OtherRequestError.

Inductive get_result :=
  | GetRaises (kind : request_failure)
  | Response (status_code : Z) (text : str).

(** [response.raise_for_status()] raises [HTTPError] (a
    [RequestException]) for the client and server error classes, and for
    those only. *)
Definition raise_for_status (status_code : Z) : bool :=
  ((400 <=? status_code) && (status_code <? 500) ||
   (500 <=? status_code) && (status_code <? 600))%Z.

(** What the process runs in: the network, which may answer differently
    each time (it sees the requests made so far), the directory of the
    script, and the order in which a [for] loop visits a set. *)
Class Env := {
  requests_get : list str → str → get_result;
  script_dir : str;
  set_iter : gset str → list str;
  set_iter_perm : ∀ S, set_iter S ≡ₚ elements S
}.

(** The module-level constants. *)
Class Config := {
  BASE_URL : str;
  NEWS_URL : str;
  OUTPUT_DIR : str;
  INDEX_FILE : str;
  MIN_PAGES : nat;
  max_pages_to_try : nat
}.

Definition source_config : Config := {|
  BASE_URL := py "https://media.kpfu.ru";
  NEWS_URL := py "https://media.kpfu.ru/news";
  OUTPUT_DIR := py "crawl_output";
  INDEX_FILE := py "index.txt";
  MIN_PAGES := 100;
  max_pages_to_try := 30
|}.

(** The observable world: the URLs requested and the files written, both
    in order of occurrence. *)
Record World := {
  requests : list str;
  files : list (str * str)
}.

(** [os.path.join(a, b)] on POSIX. *)
Definition os_path_join (a b : str) : str :=
  if startswith b (py "/") then b
  else if bool_decide (a = []) || endswith a (py "/") then a ++ b
  else a ++ py "/" ++ b.

(** ** The classifier *)

Definition is_cyrillic (c : N) : bool := ((1024 <=? c) && (c <=? 1279))%N.

Definition is_latin (c : N) : bool :=
  ((97 <=? c) && (c <=? 122) || (65 <=? c) && (c <=? 90))%N.

(** [re.compile(r'[\u0400-\u04FF]').search(text)] finds a match. *)
Definition cyrillic_search (text : str) : bool := existsb is_cyrillic text.

(** The text starts with [n] Latin letters. *)
Fixpoint latin_match (n : nat) (text : str) : bool :=
  match n with
  | 0 => true
  | S n' =>
    match text with
    | [] => false
    | c :: text' => is_latin c && latin_match n' text'
    end
  end.

(** [re.compile(r'[a-zA-Z]{3,}').search(text)] finds a match. *)
Fixpoint latin_search (text : str) : bool :=
  latin_match 3 text ||
  match text with
  | [] => false
  | _ :: text' => latin_search text'
  end.

Section Classifier.
Context {parser : HtmlParser}.

Definition stripped_tags : list str :=
  [py "script"; py "style"; py "meta"; py "link"].

(** The text the classifier looks at. *)
Definition visible_text (html : str) : str :=
  get_text_strip (decompose_all stripped_tags (bs_parse html)).

Definition is_text_page (html_content : option str) : result bool :=
  if negb (truthy html_content) then mret false
  else
    soup ← BeautifulSoup html_content;
    let soup := decompose_all stripped_tags soup in
    let text := get_text_strip soup in
    if length text <? 100 then mret false
    else
      if negb (cyrillic_search text) then
        if negb (latin_search text) then mret false
        else mret true
      else mret true.

End Classifier.

(** ** The link extractor *)

Definition blocked_extensions : list str :=
  [py ".js"; py ".css"; py ".png"; py ".jpg"; py ".jpeg"; py ".gif";
   py ".svg"; py ".ico"; py ".pdf"; py ".doc"; py ".docx"].

Section Extractor.
Context {parser : HtmlParser} {urllib : UrlLib} {cfg : Config}.

(** One turn of the loop over the anchors.  ([parse_qs(parsed.query)] is
    computed by the source and never used.) *)
Definition extract_step (links : gset str) (href : str) : gset str :=
  if startswith href (py "#") || startswith href (py "javascript:") then links
  else
    let full_url := urljoin BASE_URL href in
    if negb (str_eqb (netloc (urlparse full_url)) (netloc (urlparse BASE_URL)))
    then links
    else
      let parsed := urlparse full_url in
      let path := lower (path parsed) in
      if existsb (endswith path) blocked_extensions then links
      else if contains (lower path) (py "rss") then links
      else if str_eqb path (py "/news") || str_eqb path (py "/news/") then links
      else if contains path (py "/news") then links ∪ {[full_url]}
      else links.

Definition extract_article_links (html_content : option str)
  : result (gset str) :=
  soup ← BeautifulSoup html_content;
  mret (fold_left extract_step (find_all_a_href soup) ∅).

End Extractor.

(** ** Fetching and saving *)

Section Fetch.
Context {env : Env} {cfg : Config}.

(** One [GET]; a [RequestException] is caught and reported as [None]. *)
Definition fetch_page (url : str) (w : World) : option str * World :=
  let w' := {| requests := requests w ++ [url]; files := files w |} in
  match requests_get (requests w) url with
  | GetRaises _ => (None, w')
  | Response status_code text =>
    if raise_for_status status_code then (None, w') else (Some text, w')
  end.

(** [save_page(content, filename)]; the path it returns is not used by
    the caller.  [f.write(None)] raises [TypeError]. *)
Definition save_page (content : option str) (filename : str) (w : World)
  : result World :=
  let filepath := os_path_join OUTPUT_DIR filename in
  match content with
  | None => Raise TypeError
  | Some text =>
    mret {| requests := requests w; files := files w ++ [(filepath, text)] |}
  end.

End Fetch.

(** ** The crawl *)

(** The lists the frontier loop builds.  ([visited_urls] is created by
    the source and never used.) *)
Record Archive := {
  saved_pages : list (nat * str * str);
  page_counter : nat;
  index_entries : list str
}.

Definition empty_archive : Archive :=
  {| saved_pages := []; page_counter := 0; index_entries := [] |}.

(** The two header lines of the index file. *)
Definition index_header : str :=
  py "# File Number" ++ TAB ++ py "URL" ++ LF ++
  py "#" ++ replicate 60 61%N ++ LF.

Definition index_body (entries : list str) : str :=
  concat (map (λ entry, entry ++ LF) entries).

Section Crawl.
Context {parser : HtmlParser} {urllib : UrlLib} {env : Env} {cfg : Config}.

Definition paginated_url (page_num : nat) : str :=
  NEWS_URL ++ py "?page=" ++ str_of_nat page_num.

(** The unpaginated listing page (lines 109-114). *)
Definition fetch_listing (w : World) : result (World * gset str) :=
  let '(html, w) := fetch_page NEWS_URL w in
  if truthy html then
    new_links ← extract_article_links html;
    mret (w, (∅ : gset str) ∪ new_links)
  else mret (w, ∅).

(** The loop over the page numbers (lines 117-137); [pages] is what is
    left of [range(1, max_pages_to_try + 1)]. *)
Fixpoint pagination_loop (pages : list nat) (w : World)
    (article_urls : gset str) : result (World * gset str) :=
  match pages with
  | [] => mret (w, article_urls)
  | page_num :: pages' =>
    let '(html, w) := fetch_page (paginated_url page_num) w in
    if negb (truthy html) then mret (w, article_urls)
    else
      new_links ← extract_article_links html;
      if bool_decide (new_links = ∅) then mret (w, article_urls)
      else pagination_loop pages' w (article_urls ∪ new_links)
  end.

(** Everything up to the frontier loop. *)
Definition collect_article_urls (w : World) : result (World * gset str) :=
  '(w, article_urls) ← fetch_listing w;
  pagination_loop (seq 1 max_pages_to_try) w article_urls.

Definition page_filename (page_counter : nat) : str :=
  py "page_" ++ format_04d page_counter ++ py ".txt".

Definition index_entry (page_counter : nat) (url : str) : str :=
  str_of_nat page_counter ++ TAB ++ url.

(** The loop over the candidate URLs (lines 143-165); [urls] is what is
    left of the iteration over [article_urls]. *)
Fixpoint frontier_loop (urls : list str) (w : World) (a : Archive)
  : result (World * Archive) :=
  match urls with
  | [] => mret (w, a)
  | url :: urls' =>
    if MIN_PAGES <=? length (saved_pages a) then mret (w, a)
    else
      let '(html, w) := fetch_page url w in
      if negb (truthy html) then frontier_loop urls' w a
      else
        is_text ← is_text_page html;
        if negb is_text then frontier_loop urls' w a
        else
          let page_counter := page_counter a + 1 in
          let filename := page_filename page_counter in
          w ← save_page html filename w;
          frontier_loop urls' w
            {| saved_pages := saved_pages a ++ [(page_counter, url, filename)];
               page_counter := page_counter;
               index_entries := index_entries a ++ [index_entry page_counter url] |}
  end.

(** Writing the index (lines 168-174). *)
Definition index_path : str := os_path_join script_dir INDEX_FILE.

Definition write_index (entries : list str) (w : World) : World :=
  {| requests := requests w;
     files := files w ++ [(index_path, index_header ++ index_body entries)] |}.

(** The frontier loop and the index, given the candidate set. *)
Definition archive_frontier (article_urls : gset str) (w : World)
  : result (World * Archive) :=
  '(w, a) ← frontier_loop (set_iter article_urls) w empty_archive;
  mret (write_index (index_entries a) w, a).

(** The whole run, with the final value of the local lists. *)
Definition crawl_run (w : World) : result (World * gset str * Archive) :=
  '(w, article_urls) ← collect_article_urls w;
  '(w, a) ← archive_frontier article_urls w;
  mret (w, article_urls, a).

(** [crawl()]: the value returned and the world it leaves. *)
Definition crawl (w : World) : result (nat * World) :=
  '(w, _, a) ← crawl_run w;
  mret (length (saved_pages a), w).

End Crawl.

(** ** A model of [urllib.parse]

    The functions below follow CPython's [urllib/parse.py] line by line.
    The checks that make [urlsplit] raise [ValueError] (unbalanced
    brackets in the network location, characters that change under NFKC
    normalisation) are left out: on such input the model still returns a
    value. *)

Module Urllib.

Definition uses_relative : list str :=
  [[]; py "ftp"; py "http"; py "gopher"; py "nntp"; py "imap"; py "wais";
   py "file"; py "https"; py "shttp"; py "mms"; py "prospero"; py "rtsp";
   py "rtspu"; py "sftp"; py "svn"; py "svn+ssh"; py "ws"; py "wss"].

Definition uses_netloc : list str :=
  [[]; py "ftp"; py "http"; py "gopher"; py "nntp"; py "telnet"; py "imap";
   py "wais"; py "file"; py "mms"; py "https"; py "shttp"; py "snews";
   py "prospero"; py "rtsp"; py "rtspu"; py "rsync"; py "svn"; py "svn+ssh";
   py "sftp"; py "nfs"; py "git"; py "git+ssh"; py "ws"; py "wss"].

Definition uses_params : list str :=
  [[]; py "ftp"; py "hdl"; py "prospero"; py "http"; py "imap"; py "https";
   py "shttp"; py "rtsp"; py "rtspu"; py "sip"; py "sips"; py "mms";
   py "sftp"; py "tel"].

Definition str_in (s : str) (l : list str) : bool := bool_decide (s ∈ l).

Definition is_digit (c : N) : bool := ((48 <=? c) && (c <=? 57))%N.

Definition scheme_char (c : N) : bool :=
  is_latin c || is_digit c || (c =? 43)%N || (c =? 45)%N || (c =? 46)%N.

(** [s.split(c, 1)] when [c] occurs in [s]. *)
Fixpoint split_first (c : N) (s : str) : option (str * str) :=
  match s with
  | [] => None
  | d :: s' =>
    if (c =? d)%N then Some ([], s')
    else '(a, b) ← split_first c s'; Some (d :: a, b)
  end.

(** [s.split(c)] *)
Fixpoint split_all (c : N) (s : str) : list str :=
  match s with
  | [] => [[]]
  | d :: s' =>
    if (c =? d)%N then [] :: split_all c s'
    else
      match split_all c s' with
      | [] => [[d]]
      | seg :: segs => (d :: seg) :: segs
      end
  end.

(** [sep.join(l)] *)
Fixpoint join (sep : str) (l : list str) : str :=
  match l with
  | [] => []
  | [s] => s
  | s :: l' => s ++ sep ++ join sep l'
  end.

(** [url.lstrip(_WHATWG_C0_CONTROL_OR_SPACE)] *)
Fixpoint lstrip_c0 (s : str) : str :=
  match s with
  | [] => []
  | c :: s' => if (c <=? 32)%N then lstrip_c0 s' else s
  end.

(** Removal of tab, carriage return and line feed. *)
Definition remove_unsafe (s : str) : str :=
  filter (λ c, c ≠ 9%N ∧ c ≠ 13%N ∧ c ≠ 10%N) s.

(** [_splitnetloc(url, 2)] on the text after the two slashes. *)
Fixpoint splitnetloc (s : str) : str * str :=
  match s with
  | [] => ([], [])
  | c :: s' =>
    if (c =? 47)%N || (c =? 63)%N || (c =? 35)%N then ([], s)
    else let '(a, b) := splitnetloc s' in (c :: a, b)
  end.

Record SplitResult := {
  s_scheme : str;
  s_netloc : str;
  s_path : str;
  s_query : str;
  s_fragment : str
}.

Definition urlsplit (url scheme : str) : SplitResult :=
  let url := lstrip_c0 url in
  let scheme := rev (lstrip_c0 (rev (lstrip_c0 scheme))) in
  let url := remove_unsafe url in
  let scheme := remove_unsafe scheme in
  let '(scheme, url) :=
    match split_first 58 url with
    | Some (c :: pre, post) =>
      if is_latin c && forallb scheme_char (c :: pre)
      then (lower (c :: pre), post) else (scheme, url)
    | _ => (scheme, url)
    end in
  let '(netloc, url) :=
    if startswith url (py "//") then splitnetloc (drop 2 url) else ([], url) in
  let '(url, fragment) :=
    match split_first 35 url with
    | Some (a, b) => (a, b)
    | None => (url, [])
    end in
  let '(url, query) :=
    match split_first 63 url with
    | Some (a, b) => (a, b)
    | None => (url, [])
    end in
  {| s_scheme := scheme; s_netloc := netloc; s_path := url;
     s_query := query; s_fragment := fragment |}.

(** [_splitparams(url)], called when [';' in url]: the parameters are
    looked for after the last slash. *)
Definition splitparams (url : str) : str * str :=
  let segs := split_all 47 url in
  let last_seg := List.last segs [] in
  match split_first 59 last_seg with
  | Some (a, b) => (take (length url - length last_seg) url ++ a, b)
  | None => (url, [])
  end.

Definition urlparse_with (url scheme : str) : ParseResult :=
  let r := urlsplit url scheme in
  let '(url, params) :=
    if str_in (s_scheme r) uses_params && contains (s_path r) (py ";")
    then splitparams (s_path r) else (s_path r, []) in
  {| scheme := s_scheme r; netloc := s_netloc r; path := url;
     params := params; query := s_query r; fragment := s_fragment r |}.

Definition urlparse (url : str) : ParseResult := urlparse_with url [].

Definition nonempty (s : str) : bool := negb (bool_decide (s = [])).

Definition urlunsplit (scheme netloc url query fragment : str) : str :=
  let url :=
    if nonempty netloc ||
       (nonempty scheme && str_in scheme uses_netloc &&
        negb (str_eqb (take 2 url) (py "//")))
    then
      let url :=
        if nonempty url && negb (str_eqb (take 1 url) (py "/"))
        then py "/" ++ url else url in
      py "//" ++ netloc ++ url
    else url in
  let url := if nonempty scheme then scheme ++ py ":" ++ url else url in
  let url := if nonempty query then url ++ py "?" ++ query else url in
  if nonempty fragment then url ++ py "#" ++ fragment else url.

Definition urlunparse (scheme netloc url params query fragment : str) : str :=
  let url := if nonempty params then url ++ py ";" ++ params else url in
  urlunsplit scheme netloc url query fragment.

(** [segments[1:-1] = filter(None, segments[1:-1])] *)
Definition drop_inner_empty (segments : list str) : list str :=
  match segments with
  | [] => []
  | first :: rest =>
    match rev rest with
    | [] => [first]
    | last_seg :: inner_rev =>
      first :: filter (λ s, s ≠ []) (rev inner_rev) ++ [last_seg]
    end
  end.

(** The loop that resolves [.] and [..]. *)
Definition resolve_step (resolved_path : list str) (seg : str) : list str :=
  if str_eqb seg (py "..") then removelast resolved_path
  else if str_eqb seg (py ".") then resolved_path
  else resolved_path ++ [seg].

Definition urljoin (base url : str) : str :=
  if negb (nonempty base) then url
  else if negb (nonempty url) then base
  else
    let b := urlparse_with base [] in
    let u := urlparse_with url (scheme b) in
    if negb (str_eqb (scheme u) (scheme b)) || negb (str_in (scheme u) uses_relative)
    then url
    else if str_in (scheme u) uses_netloc && nonempty (netloc u)
    then urlunparse (scheme u) (netloc u) (path u) (params u) (query u) (fragment u)
    else
      let netloc' := if str_in (scheme u) uses_netloc then netloc b else netloc u in
      if negb (nonempty (path u)) && negb (nonempty (params u))
      then
        urlunparse (scheme u) netloc' (path b) (params b)
          (if nonempty (query u) then query u else query b) (fragment u)
      else
        let base_parts := split_all 47 (path b) in
        let base_parts :=
          if negb (str_eqb (List.last base_parts []) [])
          then removelast base_parts else base_parts in
        let segments :=
          if str_eqb (take 1 (path u)) (py "/") then split_all 47 (path u)
          else drop_inner_empty (base_parts ++ split_all 47 (path u)) in
        let resolved_path := fold_left resolve_step segments [] in
        let resolved_path :=
          if str_in (List.last segments []) [py "."; py ".."]
          then resolved_path ++ [[]] else resolved_path in
        let joined := join (py "/") resolved_path in
        urlunparse (scheme u) netloc'
          (if nonempty joined then joined else py "/")
          (params u) (query u) (fragment u).

Definition lib : UrlLib := Build_UrlLib urljoin urlparse.

End Urllib.

(** ** A small HTML backend

    Enough of an HTML parser to run the crawler on test documents: it
    agrees with [html.parser] on documents made of text and of anchor
    start tags written [<a href="...">] (no other markup, no character
    references, no [<] inside an attribute value). *)

Module PlainHtml.

Definition anchor_open : str := py "<a href=" ++ [34%N].

(** An anchor start tag with the given reference. *)
Definition anchor (href : str) : str := anchor_open ++ href ++ [34%N; 62%N].

Fixpoint hrefs (s : str) : list str :=
  match s with
  | [] => []
  | _ :: s' =>
    if startswith s anchor_open then
      match Urllib.split_first 34 (drop (length anchor_open) s) with
      | Some (value, _) => value :: hrefs s'
      | None => hrefs s'
      end
    else hrefs s'
  end.

(** The text outside the tags. *)
Fixpoint outside_tags (in_tag : bool) (s : str) : str :=
  match s with
  | [] => []
  | c :: s' =>
    if in_tag then outside_tags (negb (c =? 62)%N) s'
    else if (c =? 60)%N then outside_tags true s'
    else c :: outside_tags false s'
  end.

Definition is_space (c : N) : bool := ((9 <=? c) && (c <=? 13) || (c =? 32))%N.

Fixpoint lstrip (s : str) : str :=
  match s with
  | [] => []
  | c :: s' => if is_space c then lstrip s' else s
  end.

Definition strip (s : str) : str := rev (lstrip (rev (lstrip s))).

Definition parser : HtmlParser := {|
  soup := str;
  bs_parse := λ markup, markup;
  find_all_a_href := hrefs;
  decompose_all := λ _ s, s;
  get_text_strip := λ s, strip (outside_tags false s)
|}.

End PlainHtml.

(** An environment with the given network, in which sets are visited in
    the order of [elements]. *)
Definition env_of (net : list str → str → get_result) : Env := {|
  requests_get := net;
  script_dir := py "/srv/crawler";
  set_iter := elements;
  set_iter_perm := λ S, reflexivity (elements S)
|}.

(** ** Vocabulary of the specification *)

(** What the classifier looks for, in the words of the specification. *)
Definition has_cyrillic (text : str) : Prop :=
  ∃ c, c ∈ text ∧ (1024 ≤ c ≤ 1279)%N.

Definition latin_letter (c : N) : Prop :=
  (97 ≤ c ≤ 122)%N ∨ (65 ≤ c ≤ 90)%N.

Definition has_latin_run (text : str) : Prop :=
  ∃ a run b, text = a ++ run ++ b ∧ 3 ≤ length run ∧ Forall latin_letter run.

Section Scope.
Context {urllib : UrlLib} {cfg : Config}.

(** What the extractor checks of a URL it returns. *)
Definition in_scope (url : str) : Prop :=
  let p := urlparse url in
  netloc p = netloc (urlparse BASE_URL) ∧
  (∀ ext, ext ∈ blocked_extensions → ¬ ext `suffix_of` lower (path p)) ∧
  ¬ has_infix (py "rss") (lower (path p)) ∧
  lower (path p) ≠ py "/news" ∧
  lower (path p) ≠ py "/news/" ∧
  has_infix (py "/news") (lower (path p)).

(** The same-origin requirement as the specification words it: identical
    scheme and host. *)
Definition same_origin (url : str) : Prop :=
  scheme (urlparse url) = scheme (urlparse BASE_URL) ∧
  netloc (urlparse url) = netloc (urlparse BASE_URL).

(** The conditions on a candidate URL as the specification words them. *)
Definition in_scope_as_specified (url : str) : Prop :=
  let p := urlparse url in
  same_origin url ∧
  (∀ ext, ext ∈ blocked_extensions → ¬ ext `suffix_of` lower (path p)) ∧
  ¬ has_infix (py "rss") (path p) ∧
  path p ≠ py "/news" ∧
  path p ≠ py "/news/" ∧
  has_infix (py "/news") (path p).

End Scope.

(** The frontier loop seen from outside: what happens to one candidate. *)
Inductive verdict :=
  | Unavailable
  | NotText
  | Saved (html : str).

Section Verdicts.
Context {parser : HtmlParser} {urllib : UrlLib} {env : Env} {cfg : Config}.

(** The value [fetch_page] returns when the requests so far are [log]. *)
Definition fetch_result (log : list str) (url : str) : option str :=
  fst (fetch_page url {| requests := log; files := [] |}).

Definition judge (log : list str) (url : str) : verdict :=
  let html := fetch_result log url in
  if negb (truthy html) then Unavailable
  else
    match is_text_page html, html with
    | Ok true, Some text => Saved text
    | _, _ => NotText
    end.

(** The verdicts on a list of URLs fetched one after the other. *)
Fixpoint judged (log : list str) (urls : list str) : list (str * verdict) :=
  match urls with
  | [] => []
  | url :: urls' => (url, judge log url) :: judged (log ++ [url]) urls'
  end.

Definition accepted (trace : list (str * verdict)) : list (str * str) :=
  omap (λ '(url, v), match v with Saved html => Some (url, html) | _ => None end)
       trace.

(** The pages saved for a list of accepted (URL, HTML) pairs when the
    counter stands at [counter]. *)
Fixpoint pages_from (counter : nat) (acc : list (str * str))
  : list (nat * str * str) :=
  match acc with
  | [] => []
  | (url, _) :: acc' =>
    (counter + 1, url, page_filename (counter + 1)) :: pages_from (counter + 1) acc'
  end.

Fixpoint files_from (counter : nat) (acc : list (str * str))
  : list (str * str) :=
  match acc with
  | [] => []
  | (_, html) :: acc' =>
    (os_path_join OUTPUT_DIR (page_filename (counter + 1)), html)
      :: files_from (counter + 1) acc'
  end.

Definition entry_of (page : nat * str * str) : str :=
  index_entry page.1.1 page.1.2.

(** Whether the pagination loop stops at page [n], when [log] holds the
    requests made before page 1. *)
Definition page_outcome (log : list str) (n : nat) : option str :=
  fetch_result (log ++ map paginated_url (seq 1 (n - 1))) (paginated_url n).

Definition page_stops (log : list str) (n : nat) : Prop :=
  page_outcome log n = None ∨
  extract_article_links (page_outcome log n) = Ok ∅ ∨
  page_outcome log n = Some [].

(** The URL parser sees the listing root in the path of a URL. *)
Definition at_listing_root (url : str) : Prop :=
  lower (path (urlparse url)) = py "/news" ∨
  lower (path (urlparse url)) = py "/news/".

(** The listing and its pages are at the listing root, as they are with
    [urllib.parse] and the constants of the source. *)
Definition listing_at_root : Prop :=
  at_listing_root NEWS_URL ∧ ∀ n, at_listing_root (paginated_url n).

End Verdicts.

Section FrontierOutcome.
Context {parser : HtmlParser} {env : Env} {cfg : Config}.

(** What the frontier loop does to the world and to the lists, told from
    the verdicts: it fetches a prefix [fetched] of the URLs it is given
    and leaves [rest] alone. *)
Definition frontier_outcome (urls : list str) (w : World) (a : Archive)
    (fetched rest : list str) (w' : World) (a' : Archive) : Prop :=
  let acc := accepted (judged (requests w) fetched) in
  urls = fetched ++ rest ∧
  requests w' = requests w ++ fetched ∧
  files w' = files w ++ files_from (page_counter a) acc ∧
  saved_pages a' = saved_pages a ++ pages_from (page_counter a) acc ∧
  index_entries a' =
    index_entries a ++ map entry_of (pages_from (page_counter a) acc) ∧
  page_counter a' = page_counter a + length acc ∧
  (rest = [] ∨ MIN_PAGES ≤ length (saved_pages a')) ∧
  (∀ k, k < length fetched →
     length (saved_pages a) +
     length (accepted (judged (requests w) (take k fetched))) < MIN_PAGES).

End FrontierOutcome.

(** ** Test data *)

Module Examples.

Definition fresh : World := {| requests := []; files := [] |}.

(** Texts of more than 100 characters. *)
Definition article_text : str :=
  py "Kazan Federal University opened a new laboratory" ++ replicate 100 46%N.

Definition cyrillic_text : str :=
  [1053; 1086; 1074; 1086; 1089; 1090; 1100]%N ++ replicate 100 46%N.

Definition two_letter_text : str :=
  concat (replicate 12 (py "ab cd ef ")) ++ py "ab".

Definition abc_text : str := py "abc" ++ replicate 100 46%N.

(** A target of 10 pages instead of 100. *)
Definition ten_pages : Config := {|
  BASE_URL := py "https://media.kpfu.ru";
  NEWS_URL := py "https://media.kpfu.ru/news";
  OUTPUT_DIR := py "crawl_output";
  INDEX_FILE := py "index.txt";
  MIN_PAGES := 10;
  max_pages_to_try := 30
|}.

Definition article_url (n : nat) : str :=
  py "https://media.kpfu.ru/news/" ++ str_of_nat n.

Definition five_urls : gset str := list_to_set (map article_url (seq 1 5)).

Definition many_urls : gset str := list_to_set (map article_url (seq 1 101)).

(** Every request is answered with an article. *)
Definition all_articles : Env :=
  env_of (λ _ _, Response 200 article_text).

(** Every request is answered [304 Not Modified]. *)
Definition not_modified : Env :=
  env_of (λ _ _, Response 304 (py "cached")).

(** The listing and its pages 1 and 2 link to an article, page 3 has no
    link. *)
Definition three_pages : Env :=
  env_of (λ _ url,
    if bool_decide (url = py "https://media.kpfu.ru/news?page=3")
    then Response 200 (py "no more news")
    else Response 200 (PlainHtml.anchor (py "/news/item"))).

(** A reference over plain HTTP. *)
Definition http_link : str := py "http://media.kpfu.ru/news/1".

(** A reference with a line feed at its end. *)
Definition lf_link : str := py "http://media.kpfu.ru/news/1" ++ LF.

(** The listing links to [lf_link], which is an article; nothing else is
    found. *)
Definition lf_site : Env :=
  env_of (λ _ url,
    if bool_decide (url = py "https://media.kpfu.ru/news")
    then Response 200 (PlainHtml.anchor lf_link)
    else if bool_decide (url = lf_link) then Response 200 article_text
    else Response 404 []).

(** The listing links to one article; the pages of the listing are not
    found. *)
Definition one_article : Env :=
  env_of (λ _ url,
    if bool_decide (url = py "https://media.kpfu.ru/news")
    then Response 200 (PlainHtml.anchor (py "/news/item"))
    else if bool_decide (url = py "https://media.kpfu.ru/news/item")
    then Response 200 article_text
    else Response 404 []).

End Examples.

(** ** Further vocabulary and test data *)

Section Collected.
Context {parser : HtmlParser} {urllib : UrlLib} {cfg : Config}.

(** The links a fetched listing page contributes to the candidates: none
    when the fetch failed or the body is empty. *)
Definition links_of (html : option str) : gset str :=
  if truthy html then
    match extract_article_links html with
    | Ok links => links
    | Raise _ => ∅
    end
  else ∅.

End Collected.

Module MoreExamples.

(** No request succeeds. *)
Definition unreachable : Env := env_of (λ _ _, GetRaises ConnectionError).

(** A page with a fragment, an article, a page outside the article
    namespace and the article again. *)
Definition mixed_page : str :=
  PlainHtml.anchor (py "#top") ++ PlainHtml.anchor (py "/news/item") ++
  PlainHtml.anchor (py "/about") ++ PlainHtml.anchor (py "/news/item").

(** The same references in another order, without the repetition. *)
Definition shuffled_page : str :=
  PlainHtml.anchor (py "/about") ++ PlainHtml.anchor (py "/news/item") ++
  PlainHtml.anchor (py "#top").

End MoreExamples.

(** * Properties *)

(** ** Strings *)

Lemma startswith_prefix (s p : str) : startswith s p = true ↔ p `prefix_of` s.
Proof.
  revert s. induction p as [|c p IH]; intros s.
  - destruct s; simpl; (split; [intros _; apply prefix_nil | done]).
  - destruct s as [|d s]; simpl.
    + split; [done | intros Hp; by apply prefix_nil_inv in Hp].
    + rewrite andb_true_iff, N.eqb_eq, IH. split.
      * intros [-> Hp]. by apply prefix_cons.
      * intros Hp. split; [by apply prefix_cons_inv_1 in Hp | by apply prefix_cons_inv_2 in Hp].
Qed.

Lemma prefix_rev_suffix (s p : str) : rev p `prefix_of` rev s ↔ p `suffix_of` s.
Proof.
  split.
  - intros [k Hk]. exists (rev k).
    apply (f_equal (@rev N)) in Hk. by rewrite rev_app_distr, !rev_involutive in Hk.
  - intros [k ->]. exists (rev k). by rewrite rev_app_distr.
Qed.

Lemma endswith_suffix (s p : str) : endswith s p = true ↔ p `suffix_of` s.
Proof. unfold endswith. by rewrite startswith_prefix, prefix_rev_suffix. Qed.

Lemma contains_infix (s p : str) : contains s p = true ↔ has_infix p s.
Proof.
  induction s as [|d s IH]; cbn [contains].
  - rewrite orb_false_r, startswith_prefix. split.
    + intros [k Hk]. exists [], k. done.
    + intros (a & b & Hab). destruct a; [|done]. by exists b.
  - rewrite orb_true_iff, startswith_prefix, IH. split.
    + intros [[k Hk] | (a & b & Hab)].
      * by exists [], k.
      * exists (d :: a), b. by rewrite Hab.
    + intros (a & b & Hab). destruct a as [|d' a]; simpl in Hab.
      * left. by exists b.
      * right. exists a, b. congruence.
Qed.

Lemma str_eqb_eq (s t : str) : str_eqb s t = true ↔ s = t.
Proof. unfold str_eqb. by rewrite bool_decide_eq_true. Qed.

Lemma lower_app (s t : str) : lower (s ++ t) = lower s ++ lower t.
Proof. apply map_app. Qed.

Lemma lower_infix (p s : str) : has_infix p s → has_infix (lower p) (lower s).
Proof. intros (a & b & ->). exists (lower a), (lower b). by rewrite !lower_app. Qed.

Lemma lower_idemp (s : str) : lower (lower s) = lower s.
Proof.
  unfold lower. rewrite map_map. apply map_ext. intros c. unfold lower_cp.
  destruct ((65 <=? c) && (c <=? 90))%N eqn:E; [|by rewrite E].
  apply andb_true_iff in E as [E1%N.leb_le E2%N.leb_le].
  destruct ((65 <=? c + 32)%N && (c + 32 <=? 90)%N) eqn:E'; [|done].
  apply andb_true_iff in E' as [_ E4%N.leb_le]. lia.
Qed.

(** ** Decimal numerals *)

Lemma digits_uint_digits (d : Decimal.uint) : digits_uint (uint_digits d) = Some d.
Proof. induction d; simpl; [done | by rewrite IHd ..]. Qed.

Lemma nat_of_str_of_nat (n : nat) : nat_of_str (str_of_nat n) = Some n.
Proof.
  unfold nat_of_str, str_of_nat. rewrite digits_uint_digits. simpl.
  by rewrite Unsigned.of_to.
Qed.

Lemma str_of_nat_inj (n m : nat) : str_of_nat n = str_of_nat m → n = m.
Proof.
  intros E. apply (f_equal nat_of_str) in E.
  rewrite !nat_of_str_of_nat in E. congruence.
Qed.

Lemma nat_of_str_zero_cons (s : str) : nat_of_str (48%N :: s) = nat_of_str s.
Proof.
  unfold nat_of_str. simpl. destruct (digits_uint s) as [d|]; [|done]. done.
Qed.

Lemma nat_of_str_zfill (width : nat) (s : str) : nat_of_str (zfill width s) = nat_of_str s.
Proof.
  unfold zfill. induction (width - length s) as [|k IH]; [done|].
  simpl. by rewrite nat_of_str_zero_cons.
Qed.

Lemma nat_of_format_04d (n : nat) : nat_of_str (format_04d n) = Some n.
Proof. unfold format_04d. by rewrite nat_of_str_zfill, nat_of_str_of_nat. Qed.

Lemma format_04d_inj (n m : nat) : format_04d n = format_04d m → n = m.
Proof.
  intros E. apply (f_equal nat_of_str) in E.
  rewrite !nat_of_format_04d in E. congruence.
Qed.

Lemma format_04d_width (n : nat) : n < 100 * 100 → length (format_04d n) = 4.
Proof.
  intros Hn.
  assert (Hall : forallb (λ k, length (format_04d k) =? 4) (seq 0 (100 * 100)) = true)
    by (vm_compute; reflexivity).
  rewrite forallb_forall in Hall.
  apply Nat.eqb_eq, Hall, in_seq. lia.
Qed.

Lemma str_of_nat_digits (n : nat) : Forall (λ c, (48 ≤ c ≤ 57)%N) (str_of_nat n).
Proof.
  unfold str_of_nat. induction (Nat.to_uint n); simpl; constructor; try done; lia.
Qed.

(** ** The classifier *)

Lemma is_cyrillic_spec (c : N) : is_cyrillic c = true ↔ (1024 ≤ c ≤ 1279)%N.
Proof. unfold is_cyrillic. rewrite andb_true_iff, !N.leb_le. done. Qed.

Lemma is_latin_spec (c : N) : is_latin c = true ↔ latin_letter c.
Proof.
  unfold is_latin, latin_letter.
  rewrite orb_true_iff, !andb_true_iff, !N.leb_le. done.
Qed.

Lemma cyrillic_search_spec (text : str) :
  cyrillic_search text = true ↔ has_cyrillic text.
Proof.
  unfold cyrillic_search, has_cyrillic. rewrite existsb_exists.
  split; intros (c & Hc & Hcyr); exists c.
  - by rewrite list_elem_of_In, <- is_cyrillic_spec.
  - by rewrite <- list_elem_of_In, is_cyrillic_spec.
Qed.

Lemma latin_match_spec (n : nat) (text : str) :
  latin_match n text = true ↔
  ∃ run rest, text = run ++ rest ∧ length run = n ∧ Forall latin_letter run.
Proof.
  revert text. induction n as [|n IH]; intros text; simpl.
  - split; [intros _; by exists [], text|done].
  - destruct text as [|c text].
    + split; [done|]. intros (run & rest & Ht & Hlen & _).
      destruct run; simplify_eq/=.
    + rewrite andb_true_iff, is_latin_spec, IH. split.
      * intros (Hc & run & rest & -> & Hlen & Hrun).
        exists (c :: run), rest. simpl. split_and!; [done|lia|by constructor].
      * intros (run & rest & Ht & Hlen & Hrun).
        destruct run as [|c' run]; simplify_eq/=.
        apply Forall_cons in Hrun as [Hc Hrun]. split; [done|].
        by exists run, rest.
Qed.

Lemma latin_search_spec (text : str) :
  latin_search text = true ↔ has_latin_run text.
Proof.
  unfold has_latin_run. induction text as [|c text IH]; cbn [latin_search].
  - split; [done|]. intros (a & run & b & Ht & Hlen & _).
    destruct a; [|done]. destruct run; simpl in *; [lia|done].
  - rewrite orb_true_iff, latin_match_spec, IH. split.
    + intros [(run & rest & Ht & Hlen & Hrun) | (a & run & b & Ht & Hlen & Hrun)].
      * exists [], run, rest. split_and!; [done|lia|done].
      * exists (c :: a), run, b. by rewrite Ht.
    + intros (a & run & b & Ht & Hlen & Hrun).
      destruct a as [|c' a]; simpl in Ht.
      * left. exists (take 3 run), (drop 3 run ++ b). split_and!.
        -- by rewrite app_assoc, take_drop.
        -- rewrite length_take. lia.
        -- by apply Forall_take.
      * right. exists a, run, b. simplify_eq. done.
Qed.

Section ClassifierFacts.
Context {parser : HtmlParser}.

(** On a non-empty string the classifier is the decision on its text. *)
Lemma is_text_page_Some (html : str) :
  html ≠ [] →
  is_text_page (Some html) =
  Ok (negb (length (visible_text html) <? 100) &&
      (cyrillic_search (visible_text html) || latin_search (visible_text html))).
Proof.
  intros Hne. unfold is_text_page, visible_text.
  destruct html as [|c html]; [done|]. simpl.
  destruct (_ <? 100); [done|]. simpl.
  destruct (cyrillic_search _); [done|]. simpl.
  by destruct (latin_search _).
Qed.

Lemma is_text_page_total (html_content : option str) :
  ∃ b, is_text_page html_content = Ok b.
Proof.
  destruct html_content as [[|c html]|]; [by exists false| |by exists false].
  rewrite is_text_page_Some by done. eauto.
Qed.

(** C4.  On every HTML string the classifier answers false when the
    visible text (script, style, meta and link elements removed,
    whitespace trimmed) has fewer than 100 characters.  On a text of at
    least 100 characters (of a non-empty string: the empty one is
    rejected before it is parsed) it answers true when the text has a
    character of the Cyrillic block, otherwise true when the text has
    three Latin letters in a row, and false when it has neither. *)
Theorem is_text_page_decision (html : str) :
  let text := visible_text html in
  (length text < 100 → is_text_page (Some html) = Ok false) ∧
  (html ≠ [] → 100 ≤ length text → has_cyrillic text →
   is_text_page (Some html) = Ok true) ∧
  (html ≠ [] → 100 ≤ length text → ¬ has_cyrillic text → has_latin_run text →
   is_text_page (Some html) = Ok true) ∧
  (100 ≤ length text → ¬ has_cyrillic text → ¬ has_latin_run text →
   is_text_page (Some html) = Ok false).
Proof.
  intros text. destruct html as [|c html].
  { split_and!; try done; intros; reflexivity. }
  rewrite is_text_page_Some by done. fold text.
  rewrite <- cyrillic_search_spec, <- latin_search_spec.
  destruct (Nat.ltb_spec (length text) 100) as [Hlt|Hge]; simpl.
  - split_and!; intros; first [done | lia].
  - destruct (cyrillic_search text), (latin_search text); simpl;
      split_and!; intros; first [done | lia | congruence].
Qed.

(** C10.  On [None] and on the empty string the classifier answers false:
    the parser, which raises on [None], is not reached, and no exception
    leaves the classifier on any input. *)
Theorem is_text_page_degenerate :
  is_text_page None = Ok false ∧
  is_text_page (Some []) = Ok false ∧
  BeautifulSoup None = Raise TypeError ∧
  ∀ html_content, is_text_page html_content ≠ Raise TypeError.
Proof.
  split_and!; [done..|].
  intros h. destruct (is_text_page_total h) as [b ->]. done.
Qed.

End ClassifierFacts.

(** ** The link extractor *)

Section ExtractorFacts.
Context {parser : HtmlParser} {urllib : UrlLib} {cfg : Config}.

(** A turn of the loop adds at most the resolved reference, and only one
    that passes every test. *)
Lemma extract_step_elem (links : gset str) (href u : str) :
  u ∈ extract_step links href ↔
  u ∈ links ∨ (u = urljoin BASE_URL href ∧ extract_step ∅ href = {[u]}).
Proof.
  unfold extract_step.
  repeat (match goal with |- context [if ?b then _ else _] => destruct b end);
    set_solver.
Qed.

Lemma extract_step_in_scope (href u : str) :
  extract_step ∅ href = {[u]} → in_scope u.
Proof.
  unfold extract_step, in_scope.
  destruct (_ || _) eqn:Hfrag; [set_solver|].
  destruct (negb _) eqn:Hnet; [set_solver|].
  destruct (existsb _ _) eqn:Hext; [set_solver|].
  destruct (contains _ (py "rss")) eqn:Hrss; [set_solver|].
  destruct (str_eqb _ _ || _) eqn:Hroot; [set_solver|].
  destruct (contains _ (py "/news")) eqn:Hnews; [|set_solver].
  intros Hu. assert (u = urljoin BASE_URL href) as -> by set_solver. simpl.
  apply negb_false_iff, str_eqb_eq in Hnet.
  apply orb_false_iff in Hroot as [Hr1 Hr2].
  rewrite lower_idemp in Hrss.
  split_and!.
  - done.
  - intros ext Hin Hsuf. apply endswith_suffix in Hsuf.
    apply not_true_iff_false in Hext. apply Hext, existsb_exists.
    exists ext. by rewrite <- list_elem_of_In.
  - rewrite <- contains_infix. congruence.
  - rewrite <- str_eqb_eq. congruence.
  - rewrite <- str_eqb_eq. congruence.
  - by apply contains_infix.
Qed.

Lemma extract_fold_elem (hrefs : list str) (links : gset str) (u : str) :
  u ∈ fold_left extract_step hrefs links ↔
  u ∈ links ∨ ∃ href, href ∈ hrefs ∧ extract_step ∅ href = {[u]}.
Proof.
  revert links. induction hrefs as [|href hrefs IH]; intros links; simpl.
  - set_solver.
  - rewrite IH, extract_step_elem. split.
    + intros [[?|[_ ?]]|(h & ? & ?)]; [by left|right..].
      * exists href. set_solver.
      * exists h. set_solver.
    + intros [?|(h & [E|?]%elem_of_cons & Hh)]; [by left; left| |].
      * left. right. rewrite <- E. split; [|done].
        assert (Hu : u ∈ extract_step ∅ h) by set_solver.
        apply extract_step_elem in Hu. set_solver.
      * right. by exists h.
Qed.

Lemma extract_article_links_Some (html : str) :
  extract_article_links (Some html) =
  Ok (fold_left extract_step (find_all_a_href (bs_parse html)) ∅).
Proof. done. Qed.

Lemma extract_article_links_truthy (html : option str) :
  truthy html = true → ∃ links, extract_article_links html = Ok links.
Proof. destruct html as [html|]; [|done]. intros _. by eexists. Qed.

Lemma extract_article_links_in_scope (html : option str) (links : gset str) (u : str) :
  extract_article_links html = Ok links → u ∈ links → in_scope u.
Proof.
  destruct html as [html|]; [|done]. rewrite extract_article_links_Some.
  intros [= <-] [?|(h & _ & Hh)]%extract_fold_elem; [set_solver|].
  by eapply extract_step_in_scope.
Qed.

(** What [in_scope], a test on the lower-cased path, says of the path as
    it stands. *)
Lemma in_scope_path (u : str) :
  in_scope u →
  ¬ has_infix (py "rss") (path (urlparse u)) ∧
  path (urlparse u) ≠ py "/news" ∧
  path (urlparse u) ≠ py "/news/".
Proof.
  intros (_ & _ & Hrss & Hr1 & Hr2 & _). split_and!.
  - intros Hin. by apply Hrss, (lower_infix (py "rss")).
  - intros E. by rewrite E in Hr1.
  - intros E. by rewrite E in Hr2.
Qed.

(** The set does not depend on what was collected before: a second pass
    over the same anchors adds nothing. *)
Lemma extract_fold_again (hrefs : list str) (links : gset str) :
  fold_left extract_step hrefs (fold_left extract_step hrefs links) =
  fold_left extract_step hrefs links.
Proof.
  apply set_eq. intros u. rewrite !extract_fold_elem. naive_solver.
Qed.

Lemma extract_fold_union (hrefs : list str) (links : gset str) :
  fold_left extract_step hrefs links = links ∪ fold_left extract_step hrefs ∅.
Proof.
  apply set_eq. intros u. rewrite elem_of_union, !extract_fold_elem. set_solver.
Qed.

(** C9.  Two applications of the extractor to the same HTML return the
    same set, and merging the second result into a candidate set that
    holds the first changes nothing; neither does running the loop over
    the anchors again on top of its own result. *)
Theorem extract_article_links_idempotent
    (html : option str) (once twice candidates : gset str) :
  extract_article_links html = Ok once →
  extract_article_links html = Ok twice →
  twice = once ∧
  (candidates ∪ once) ∪ twice = candidates ∪ once ∧
  ∀ text, html = Some text →
    fold_left extract_step (find_all_a_href (bs_parse text)) once = once.
Proof.
  intros H1 H2. rewrite H1 in H2. injection H2 as <-. split_and!.
  - done.
  - set_solver.
  - intros text ->. rewrite extract_article_links_Some in H1.
    injection H1 as <-. apply extract_fold_again.
Qed.

End ExtractorFacts.

(** ** The fetcher *)

Section FetchFacts.
Context {env : Env}.

Lemma fetch_page_world (url : str) (w : World) :
  requests (fetch_page url w).2 = requests w ++ [url] ∧
  files (fetch_page url w).2 = files w.
Proof.
  unfold fetch_page. destruct (requests_get _ _) as [|st text]; [done|].
  by destruct (raise_for_status st).
Qed.

Lemma fetch_page_result (url : str) (w : World) :
  (fetch_page url w).1 = fetch_result (requests w) url.
Proof.
  unfold fetch_result, fetch_page. simpl.
  destruct (requests_get _ _) as [|st text]; [done|].
  by destruct (raise_for_status st).
Qed.

Lemma raise_for_status_spec (status_code : Z) :
  raise_for_status status_code = true ↔ (400 ≤ status_code < 600)%Z.
Proof.
  unfold raise_for_status.
  rewrite orb_true_iff, !andb_true_iff, !Z.leb_le, !Z.ltb_lt. lia.
Qed.

(** C8, as the code has it.  A fetch makes exactly one request and
    writes no file.  When the request raises (network error, timeout, any
    other request exception) or the response carries a status of the 4xx
    or 5xx class, the caller gets [None]; a response with any other
    status gives its body. *)
Theorem fetch_page_outcome (url : str) (w : World) :
  requests (fetch_page url w).2 = requests w ++ [url] ∧
  files (fetch_page url w).2 = files w ∧
  (∀ kind, requests_get (requests w) url = GetRaises kind →
     (fetch_page url w).1 = None) ∧
  (∀ status_code text,
     requests_get (requests w) url = Response status_code text →
     (400 ≤ status_code < 600)%Z → (fetch_page url w).1 = None) ∧
  (∀ status_code text,
     requests_get (requests w) url = Response status_code text →
     ¬ (400 ≤ status_code < 600)%Z → (fetch_page url w).1 = Some text).
Proof.
  destruct (fetch_page_world url w) as [Hr Hf]. split_and!; [done..| | |].
  - intros kind E. unfold fetch_page. by rewrite E.
  - intros st text E Hst. unfold fetch_page. rewrite E.
    apply raise_for_status_spec in Hst. by rewrite Hst.
  - intros st text E Hst. unfold fetch_page. rewrite E.
    rewrite <- raise_for_status_spec in Hst. by destruct (raise_for_status st).
Qed.

End FetchFacts.

(** ** The pagination walk *)

Section WalkFacts.
Context {parser : HtmlParser} {urllib : UrlLib} {env : Env} {cfg : Config}.

Lemma paginated_url_inj (n m : nat) : paginated_url n = paginated_url m → n = m.
Proof.
  unfold paginated_url. intros E.
  by apply app_inv_head, app_inv_head, str_of_nat_inj in E.
Qed.

Lemma paginated_url_not_listing (n : nat) : paginated_url n ≠ NEWS_URL.
Proof.
  unfold paginated_url. intros E. apply (f_equal length) in E.
  rewrite !length_app in E. simpl in E. lia.
Qed.

Lemma seq_snoc (start len : nat) : seq start (S len) = seq start len ++ [start + len].
Proof. by rewrite seq_S. Qed.

(** The loop from page [start] on, when the pages before it have been
    requested: it requests the pages [start], [start + 1], ... up to and
    including the first one that stops it. *)
Lemma pagination_loop_spec (log : list str) (len : nat) :
  ∀ (start : nat) (w : World) (article_urls : gset str),
  1 ≤ start →
  requests w = log ++ map paginated_url (seq 1 (start - 1)) →
  ∃ m w' article_urls',
    pagination_loop (seq start len) w article_urls = Ok (w', article_urls') ∧
    m ≤ len ∧
    requests w' = requests w ++ map paginated_url (seq start m) ∧
    files w' = files w ∧
    (∀ n, start ≤ n < start + m - 1 → ¬ page_stops log n) ∧
    (m < len → 1 ≤ m ∧ page_stops log (start + m - 1)) ∧
    (∀ u, u ∈ article_urls' → u ∈ article_urls ∨ in_scope u).
Proof.
  induction len as [|len IH]; intros start w urls Hstart Hlog.
  - exists 0, w, urls. simpl. rewrite app_nil_r. split_and!; auto; lia.
  - cbn [seq pagination_loop].
    pose proof (fetch_page_world (paginated_url start) w) as [Hreq Hfiles].
    pose proof (fetch_page_result (paginated_url start) w) as Hres.
    destruct (fetch_page (paginated_url start) w) as [html w1] eqn:Hfetch.
    simpl in Hreq, Hfiles, Hres.
    assert (Hout : html = page_outcome log start)
      by (unfold page_outcome; by rewrite <- Hlog).
    assert (Hstop : page_stops log start →
      (1 < S len → 1 ≤ 1 ∧ page_stops log (start + 1 - 1)) ∧
      (∀ n, start ≤ n < start + 1 - 1 → ¬ page_stops log n)).
    { intros Hs. replace (start + 1 - 1) with start by lia. split; [done|lia]. }
    destruct (truthy html) eqn:Htruthy; simpl.
    + destruct (extract_article_links_truthy html Htruthy) as [links Hlinks].
      rewrite Hlinks. simpl. case_bool_decide as Hempty.
      * exists 1, w1, urls. simpl.
        assert (page_stops log start) as Hs
          by (right; left; by rewrite <- Hout, Hlinks, Hempty).
        destruct (Hstop Hs) as [H1 H2].
        split_and!; [done|lia|done|done|exact H2|exact H1|auto].
      * destruct (IH (S start) w1 (urls ∪ links)) as (m & w' & urls' & Hrun & Hm & Hreq' & Hfiles' & Hgo & Hlast & Hscope).
        { lia. }
        { rewrite Hreq, Hlog, <- app_assoc. f_equal.
          replace (S start - 1) with (S (start - 1)) by lia.
          rewrite seq_snoc, map_app. simpl. do 3 f_equal. lia. }
        exists (S m), w', urls'. split_and!.
        -- done.
        -- lia.
        -- rewrite Hreq', Hreq, <- app_assoc. done.
        -- congruence.
        -- intros n Hn. destruct (decide (n = start)) as [->|Hne].
           ++ intros [Hs|[Hs|Hs]]; rewrite <- Hout in Hs.
              ** rewrite Hs in Htruthy. done.
              ** rewrite Hlinks in Hs. congruence.
              ** rewrite Hs in Htruthy. done.
           ++ apply Hgo. lia.
        -- intros Hlt. destruct Hlast as [Hm1 Hs]; [lia|]. split; [lia|].
           by replace (start + S m - 1) with (S start + m - 1) by lia.
        -- intros u [Hu|Hu]%Hscope; [|by right].
           apply elem_of_union in Hu as [Hu|Hu]; [by left|right].
           by eapply extract_article_links_in_scope.
    + exists 1, w1, urls. simpl.
      assert (page_stops log start) as Hs.
      { unfold page_stops. rewrite <- Hout.
        destruct html as [[|c t]|]; [by right; right|done|by left]. }
      destruct (Hstop Hs) as [H1 H2].
      split_and!; [done|lia|done|done|exact H2|exact H1|auto].
Qed.

Lemma fetch_listing_spec (w : World) :
  ∃ w' article_urls,
    fetch_listing w = Ok (w', article_urls) ∧
    requests w' = requests w ++ [NEWS_URL] ∧
    files w' = files w ∧
    ∀ u, u ∈ article_urls → in_scope u.
Proof.
  unfold fetch_listing.
  pose proof (fetch_page_world NEWS_URL w) as [Hreq Hfiles].
  destruct (fetch_page NEWS_URL w) as [html w1]. simpl in *.
  destruct (truthy html) eqn:Htruthy.
  - destruct (extract_article_links_truthy html Htruthy) as [links Hlinks].
    rewrite Hlinks. simpl. eexists _, _. split_and!; [done..|].
    intros u Hu. apply (extract_article_links_in_scope html links); [done|set_solver].
  - eexists _, _. split_and!; [done..|]. set_solver.
Qed.

(** The walk as a whole. *)
Lemma collect_article_urls_spec (w : World) :
  ∃ m w' article_urls,
    collect_article_urls w = Ok (w', article_urls) ∧
    m ≤ max_pages_to_try ∧
    requests w' = requests w ++ NEWS_URL :: map paginated_url (seq 1 m) ∧
    files w' = files w ∧
    (∀ n, 1 ≤ n < m → ¬ page_stops (requests w ++ [NEWS_URL]) n) ∧
    (m < max_pages_to_try → 1 ≤ m ∧ page_stops (requests w ++ [NEWS_URL]) m) ∧
    (∀ u, u ∈ article_urls → in_scope u).
Proof.
  unfold collect_article_urls.
  destruct (fetch_listing_spec w) as (w1 & S1 & -> & Hreq1 & Hfiles1 & Hscope1).
  simpl.
  destruct (pagination_loop_spec (requests w ++ [NEWS_URL]) max_pages_to_try 1 w1 S1)
    as (m & w' & S' & Hrun & Hm & Hreq & Hfiles & Hgo & Hlast & Hscope).
  { done. }
  { simpl. by rewrite app_nil_r. }
  exists m, w', S'. split_and!.
  - done.
  - done.
  - rewrite Hreq, Hreq1, <- app_assoc. done.
  - congruence.
  - intros n Hn. apply Hgo. lia.
  - intros Hlt. destruct (Hlast Hlt) as [? Hs]. split; [done|].
    by replace (1 + m - 1) with m in Hs by lia.
  - intros u [Hu|Hu]%Hscope; auto.
Qed.

(** C5.  The walk requests the listing, then the pages 1, 2, ... in
    order and nothing else; it goes past a page only if that page was
    fetched with a non-empty body and gave at least one link, so a page
    whose fetch fails or that gives no link is the last one requested;
    and it never requests more than [max_pages_to_try] pages (30 in the
    source). *)
Theorem pagination_stops (w : World) :
  ∃ m w' article_urls,
    collect_article_urls w = Ok (w', article_urls) ∧
    requests w' = requests w ++ NEWS_URL :: map paginated_url (seq 1 m) ∧
    m ≤ max_pages_to_try ∧
    (∀ n, 1 ≤ n < m → ¬ page_stops (requests w ++ [NEWS_URL]) n) ∧
    (∀ n, 1 ≤ n → page_stops (requests w ++ [NEWS_URL]) n →
       m ≤ n ∧
       ∀ j, n < j → paginated_url j ∉ NEWS_URL :: map paginated_url (seq 1 m)) ∧
    (m < max_pages_to_try → 1 ≤ m ∧ page_stops (requests w ++ [NEWS_URL]) m) ∧
    @max_pages_to_try source_config = 30.
Proof.
  destruct (collect_article_urls_spec w)
    as (m & w' & S' & Hrun & Hm & Hreq & _ & Hgo & Hlast & _).
  exists m, w', S'. split_and!; [done..| |done|done].
  intros n Hn Hs.
  assert (m ≤ n) as Hmn.
  { destruct (decide (m ≤ n)); [done|]. exfalso. apply (Hgo n); [lia|done]. }
  split; [done|]. intros j Hj [Hin|Hin]%elem_of_cons.
  - by apply paginated_url_not_listing in Hin.
  - apply list_elem_of_fmap in Hin as (i & Hi%paginated_url_inj & Hin).
    apply list_elem_of_In, in_seq in Hin. lia.
Qed.

End WalkFacts.

(** ** The frontier loop *)

Section FrontierFacts.
Context {parser : HtmlParser} {env : Env} {cfg : Config}.

Lemma judge_unavailable (log : list str) (url : str) :
  truthy (fetch_result log url) = false → judge log url = Unavailable.
Proof. unfold judge. by intros ->. Qed.

Lemma judge_not_text (log : list str) (url : str) :
  truthy (fetch_result log url) = true →
  is_text_page (fetch_result log url) = Ok false →
  judge log url = NotText.
Proof. unfold judge. by intros -> ->. Qed.

Lemma judge_saved (log : list str) (url text : str) :
  fetch_result log url = Some text →
  truthy (Some text) = true →
  is_text_page (Some text) = Ok true →
  judge log url = Saved text.
Proof. unfold judge. by intros -> -> ->. Qed.

Lemma judged_urls (log : list str) (urls : list str) :
  map fst (judged log urls) = urls.
Proof. revert log. induction urls as [|u urls IH]; intros log; simpl; [done|by rewrite IH]. Qed.

Lemma judged_take (k : nat) (log : list str) (urls : list str) :
  take k (judged log urls) = judged log (take k urls).
Proof.
  revert k log. induction urls as [|u urls IH]; intros [|k] log; simpl; [done..|].
  by rewrite IH.
Qed.

Lemma accepted_length (trace : list (str * verdict)) :
  length (accepted trace) ≤ length trace.
Proof.
  induction trace as [|[u v] trace IH]; simpl; [done|].
  destruct v; simpl; lia.
Qed.

Lemma frontier_loop_spec (urls : list str) :
  ∀ (w : World) (a : Archive),
  ∃ fetched rest w' a',
    frontier_loop urls w a = Ok (w', a') ∧
    frontier_outcome urls w a fetched rest w' a'.
Proof.
  unfold frontier_outcome.
  induction urls as [|url urls IH]; intros w a.
  { exists [], [], w, a. simpl. rewrite !app_nil_r.
    split_and!; auto; try lia; intros k Hk; simpl in Hk; lia. }
  cbn [frontier_loop].
  destruct (Nat.leb_spec MIN_PAGES (length (saved_pages a))) as [Hfull|Hroom].
  { exists [], (url :: urls), w, a. simpl. rewrite !app_nil_r.
    split_and!; auto; try lia; intros k Hk; simpl in Hk; lia. }
  pose proof (fetch_page_world url w) as [Hreq Hfiles].
  pose proof (fetch_page_result url w) as Hres.
  destruct (fetch_page url w) as [html w1]. simpl in Hreq, Hfiles, Hres.
  assert (Hcont : ∀ v, judge (requests w) url = v →
    (∀ text, v ≠ Saved text) →
    ∃ fetched rest w' a',
      frontier_loop urls w1 a = Ok (w', a') ∧
      url :: urls = fetched ++ rest ∧
      requests w' = requests w ++ fetched ∧
      files w' = files w ++ files_from (page_counter a) (accepted (judged (requests w) fetched)) ∧
      saved_pages a' = saved_pages a ++ pages_from (page_counter a) (accepted (judged (requests w) fetched)) ∧
      index_entries a' = index_entries a ++ map entry_of (pages_from (page_counter a) (accepted (judged (requests w) fetched))) ∧
      page_counter a' = page_counter a + length (accepted (judged (requests w) fetched)) ∧
      (rest = [] ∨ MIN_PAGES ≤ length (saved_pages a')) ∧
      (∀ k, k < length fetched →
        length (saved_pages a) + length (accepted (judged (requests w) (take k fetched))) < MIN_PAGES)).
  { intros v Hv Hns.
    destruct (IH w1 a) as (fetched & rest & w' & a' & Hrun & -> & Hr & Hf & Hs & Hi & Hc & Hend & Hlt).
    exists (url :: fetched), rest, w', a'.
    assert (Hacc : ∀ l, accepted ((url, v) :: l) = accepted l).
    { intros l. unfold accepted. simpl. destruct v; [done..|]. by destruct (Hns html0). }
    cbn [judged]. rewrite Hv, Hacc, <- Hreq.
    split_and!; try done.
    - by rewrite Hr, Hreq, <- app_assoc.
    - congruence.
    - intros [|k] Hk.
      + simpl. lia.
      + cbn [take judged]. rewrite Hv, Hacc, <- Hreq. apply Hlt. simpl in Hk. lia. }
  destruct (truthy html) eqn:Htruthy; simpl.
  2:{ apply (Hcont Unavailable); [|done].
      apply judge_unavailable. by rewrite <- Hres, Htruthy. }
  destruct (is_text_page_total html) as [b Hb]. rewrite Hb. simpl.
  destruct b; simpl.
  2:{ apply (Hcont NotText); [|done].
      apply judge_not_text; by rewrite <- Hres. }
  destruct html as [text|]; [|done]. simpl.
  set (a2 := {| saved_pages := _ |}). set (w2 := {| requests := _ |}).
  destruct (IH w2 a2) as (fetched & rest & w' & a' & Hrun & -> & Hr & Hf & Hs & Hi & Hc & Hend & Hlt).
  exists (url :: fetched), rest, w', a'.
  assert (Hv : judge (requests w) url = Saved text) by (apply judge_saved; by rewrite <- ?Hres).
  assert (Hacc : ∀ l, accepted ((url, Saved text) :: l) = (url, text) :: accepted l) by done.
  subst a2 w2. cbn [page_counter saved_pages index_entries requests files] in *.
  cbn [judged]. rewrite Hv, Hacc, <- Hreq.
  cbn [pages_from files_from map length].
  split_and!; try done.
  - by rewrite Hr, Hreq, <- app_assoc.
  - rewrite Hf, Hfiles, <- app_assoc. done.
  - rewrite Hs, <- app_assoc. done.
  - rewrite Hi, <- app_assoc. done.
  - rewrite Hc. lia.
  - intros [|k] Hk.
    + simpl. lia.
    + cbn [take judged]. rewrite Hv, Hacc, <- Hreq. cbn [length].
      specialize (Hlt k). rewrite length_app in Hlt. simpl in Hlt, Hk. lia.
Qed.

End FrontierFacts.

(** ** Numbering, file names and the index *)

Lemma line_count_app (s t : str) : line_count (s ++ t) = line_count s + line_count t.
Proof. unfold line_count. by rewrite filter_app, length_app. Qed.

Lemma line_count_none (s : str) : 10%N ∉ s → line_count s = 0.
Proof.
  unfold line_count. induction s as [|c s IH]; [done|].
  intros Hnin. apply not_elem_of_cons in Hnin as [Hne Hnin].
  rewrite filter_cons_False by congruence. auto.
Qed.

Lemma line_count_header : line_count index_header = 2.
Proof. vm_compute. reflexivity. Qed.

Lemma index_entry_one_line (n : nat) (url : str) :
  10%N ∉ url → line_count (index_entry n url ++ LF) = 1.
Proof.
  intros Hurl. unfold index_entry. rewrite !line_count_app.
  rewrite (line_count_none url) by done.
  rewrite (line_count_none (str_of_nat n)); [done|].
  intros Hin. pose proof (str_of_nat_digits n) as Hd.
  rewrite Forall_forall in Hd. apply Hd in Hin. lia.
Qed.

Section NumberingFacts.
Context {cfg : Config}.

Lemma page_filename_inj (n m : nat) : page_filename n = page_filename m → n = m.
Proof.
  unfold page_filename. intros E.
  apply app_inv_head, app_inv_tail in E. by apply format_04d_inj.
Qed.

(** A page file lands in the output directory, under its own name. *)
Lemma page_path (n : nat) :
  ∃ dir, (∀ m, os_path_join OUTPUT_DIR (page_filename m) = dir ++ page_filename m) ∧
         (dir = OUTPUT_DIR ∨ dir = OUTPUT_DIR ++ py "/").
Proof.
  unfold os_path_join.
  destruct (bool_decide (OUTPUT_DIR = []) || endswith OUTPUT_DIR (py "/")).
  - exists OUTPUT_DIR. split; [|by left]. intros m.
    destruct OUTPUT_DIR; done.
  - exists (OUTPUT_DIR ++ py "/"). split; [|by right]. intros m.
    rewrite <- app_assoc. destruct OUTPUT_DIR; done.
Qed.

Lemma page_path_inj (n m : nat) :
  os_path_join OUTPUT_DIR (page_filename n) = os_path_join OUTPUT_DIR (page_filename m) →
  n = m.
Proof.
  destruct (page_path 0) as (dir & Hdir & _). rewrite !Hdir.
  intros E. by apply app_inv_head, page_filename_inj in E.
Qed.

Lemma format_04d_last (n : nat) :
  ∃ f d, format_04d n = f ++ [d] ∧ (48 ≤ d ≤ 57)%N.
Proof.
  assert (Hdig : Forall (λ c, (48 ≤ c ≤ 57)%N) (format_04d n)).
  { unfold format_04d, zfill. apply Forall_app. split; [|apply str_of_nat_digits].
    apply Forall_replicate. lia. }
  assert (Hlen : 4 ≤ length (format_04d n)).
  { unfold format_04d, zfill. rewrite length_app, length_replicate. lia. }
  destruct (format_04d n) as [|d f _] using rev_ind; [simpl in Hlen; lia|].
  exists f, d. split; [done|].
  rewrite Forall_app, Forall_singleton in Hdig. by destruct Hdig as [_ Hd].
Qed.

(** With the index file name of the source, the index is not written
    over a page file, wherever the script and the output directory are. *)
Lemma index_path_not_page {env : Env} (n : nat) :
  INDEX_FILE = py "index.txt" →
  index_path ≠ os_path_join OUTPUT_DIR (page_filename n).
Proof.
  intros Hname. destruct (page_path 0) as (dir & -> & _).
  assert (∃ pre, index_path = pre ++ py "inde" ++ [120%N] ++ py ".txt") as [pre ->].
  { unfold index_path, os_path_join. rewrite Hname.
    change (startswith (py "index.txt") (py "/")) with false. cbv iota.
    destruct (_ || _).
    - by exists script_dir.
    - exists (script_dir ++ py "/"). by rewrite <- app_assoc. }
  destruct (format_04d_last n) as (f & d & Hf & Hd).
  unfold page_filename. rewrite Hf. intros E.
  rewrite !app_assoc in E. apply app_inv_tail in E.
  rewrite <- !app_assoc in E.
  replace (pre ++ py "inde" ++ [120%N]) with ((pre ++ py "inde") ++ [120%N]) in E
    by (by rewrite <- app_assoc).
  replace (dir ++ py "page_" ++ f ++ [d]) with ((dir ++ py "page_" ++ f) ++ [d]) in E
    by (by rewrite <- !app_assoc).
  apply app_inj_tail in E as [_ <-]. lia.
Qed.

Lemma pages_from_length (c : nat) (acc : list (str * str)) :
  length (pages_from c acc) = length acc.
Proof. revert c. induction acc as [|[u h] acc IH]; intros c; simpl; auto. Qed.

Lemma files_from_length (c : nat) (acc : list (str * str)) :
  length (files_from c acc) = length acc.
Proof. revert c. induction acc as [|[u h] acc IH]; intros c; simpl; auto. Qed.

Lemma pages_from_numbers (c : nat) (acc : list (str * str)) :
  map (λ p, p.1.1) (pages_from c acc) = seq (c + 1) (length acc).
Proof.
  revert c. induction acc as [|[u h] acc IH]; intros c; simpl; [done|].
  rewrite IH. do 2 f_equal. lia.
Qed.

Lemma pages_from_urls (c : nat) (acc : list (str * str)) :
  map (λ p, p.1.2) (pages_from c acc) = map fst acc.
Proof. revert c. induction acc as [|[u h] acc IH]; intros c; simpl; [done|by rewrite IH]. Qed.

Lemma pages_from_filenames (c : nat) (acc : list (str * str)) (p : nat * str * str) :
  p ∈ pages_from c acc → p.2 = page_filename p.1.1 ∧ c < p.1.1 ≤ c + length acc.
Proof.
  revert c. induction acc as [|[u h] acc IH]; intros c; simpl.
  - by intros ?%elem_of_nil.
  - intros [->|Hin]%elem_of_cons; simpl; [split; [done|lia]|].
    apply IH in Hin as [? ?]. split; [done|lia].
Qed.

Lemma files_from_paths (c : nat) (acc : list (str * str)) :
  map fst (files_from c acc) =
  map (λ p, os_path_join OUTPUT_DIR p.2) (pages_from c acc).
Proof. revert c. induction acc as [|[u h] acc IH]; intros c; simpl; [done|by rewrite IH]. Qed.

Lemma files_from_numbers (c : nat) (acc : list (str * str)) :
  map fst (files_from c acc) =
  map (λ n, os_path_join OUTPUT_DIR (page_filename n)) (seq (c + 1) (length acc)).
Proof.
  revert c. induction acc as [|[u h] acc IH]; intros c; simpl; [done|].
  rewrite IH. do 3 f_equal. lia.
Qed.

Lemma files_from_contents (c : nat) (acc : list (str * str)) :
  map snd (files_from c acc) = map snd acc.
Proof. revert c. induction acc as [|[u h] acc IH]; intros c; simpl; [done|by rewrite IH]. Qed.

Lemma files_from_NoDup (c : nat) (acc : list (str * str)) :
  NoDup (map fst (files_from c acc)).
Proof.
  rewrite files_from_numbers. apply NoDup_fmap_2_strong; [|apply NoDup_seq].
  intros n m _ _. apply page_path_inj.
Qed.

Lemma entries_from (c : nat) (acc : list (str * str)) :
  map entry_of (pages_from c acc) =
  map (λ p, str_of_nat p.1.1 ++ TAB ++ p.1.2) (pages_from c acc).
Proof. done. Qed.

Lemma index_body_lines (pages : list (nat * str * str)) :
  (∀ p, p ∈ pages → 10%N ∉ p.1.2) →
  line_count (index_body (map entry_of pages)) = length pages.
Proof.
  unfold index_body. induction pages as [|p pages IH]; intros Hlf; simpl; [done|].
  rewrite line_count_app. unfold entry_of at 1.
  rewrite index_entry_one_line by (apply Hlf; by left).
  rewrite IH; [done|]. intros q Hq. apply Hlf. by right.
Qed.

End NumberingFacts.

(** ** The run as a whole *)

Section RunFacts.
Context {parser : HtmlParser} {urllib : UrlLib} {env : Env} {cfg : Config}.

Lemma set_iter_NoDup (article_urls : gset str) : NoDup (set_iter article_urls).
Proof. rewrite set_iter_perm. apply NoDup_elements. Qed.

Lemma set_iter_elem (article_urls : gset str) (u : str) :
  u ∈ set_iter article_urls ↔ u ∈ article_urls.
Proof. rewrite set_iter_perm. apply elem_of_elements. Qed.

Lemma set_iter_length (article_urls : gset str) :
  length (set_iter article_urls) = size article_urls.
Proof. by rewrite set_iter_perm. Qed.

Lemma archive_frontier_spec (article_urls : gset str) (w : World) :
  ∃ fetched rest w1 a,
    archive_frontier article_urls w = Ok (write_index (index_entries a) w1, a) ∧
    frontier_outcome (set_iter article_urls) w empty_archive fetched rest w1 a.
Proof.
  unfold archive_frontier.
  destruct (frontier_loop_spec (set_iter article_urls) w empty_archive)
    as (fetched & rest & w1 & a & -> & Hout).
  by exists fetched, rest, w1, a.
Qed.

Lemma crawl_run_spec (w : World) :
  ∃ m w0 article_urls fetched rest w1 a,
    collect_article_urls w = Ok (w0, article_urls) ∧
    requests w0 = requests w ++ NEWS_URL :: map paginated_url (seq 1 m) ∧
    files w0 = files w ∧
    (∀ u, u ∈ article_urls → in_scope u) ∧
    frontier_outcome (set_iter article_urls) w0 empty_archive fetched rest w1 a ∧
    crawl_run w = Ok (write_index (index_entries a) w1, article_urls, a) ∧
    crawl w = Ok (length (saved_pages a), write_index (index_entries a) w1).
Proof.
  destruct (collect_article_urls_spec w)
    as (m & w0 & urls & Hcollect & _ & Hreq & Hfiles & _ & _ & Hscope).
  destruct (archive_frontier_spec urls w0) as (fetched & rest & w1 & a & Harch & Hout).
  exists m, w0, urls, fetched, rest, w1, a.
  unfold crawl, crawl_run. rewrite Hcollect. simpl. rewrite Harch. simpl.
  split_and!; done.
Qed.

End RunFacts.

Section Claims.
Context {parser : HtmlParser} {urllib : UrlLib} {env : Env} {cfg : Config}.

(** C1.  Every run returns, and the pages it saved carry the numbers
    1, 2, ..., k in the order of saving, k being the number of candidates
    the loop accepted and the final value of the counter; each page was
    written under the name [page_] + the number in at least four digits
    + [.txt], from which the number can be read back, and the numeral has
    exactly four digits as long as the target is below 10000
    (100 * 100). *)
Theorem sequence_numbers_dense (w : World) :
  ∃ w0 w' article_urls fetched a,
    collect_article_urls w = Ok (w0, article_urls) ∧
    crawl_run w = Ok (w', article_urls, a) ∧
    requests w' = requests w0 ++ fetched ∧
    length (saved_pages a) = length (accepted (judged (requests w0) fetched)) ∧
    page_counter a = length (saved_pages a) ∧
    map (λ p, p.1.1) (saved_pages a) = seq 1 (length (saved_pages a)) ∧
    (∀ p, p ∈ saved_pages a →
       p.2 = py "page_" ++ format_04d p.1.1 ++ py ".txt" ∧
       nat_of_str (format_04d p.1.1) = Some p.1.1 ∧
       (MIN_PAGES < 100 * 100 → length (format_04d p.1.1) = 4)) ∧
    ∃ page_files index_file,
      files w' = files w ++ page_files ++ [index_file] ∧
      map fst page_files =
        map (λ p, os_path_join OUTPUT_DIR p.2) (saved_pages a).
Proof.
  destruct (crawl_run_spec w)
    as (m & w0 & urls & fetched & rest & w1 & a & Hcollect & Hreq0 & Hfiles0 & _ & Hout & Hrun & _).
  destruct Hout as (Hurls & Hreq & Hfiles & Hsaved & Hindex & Hcount & Hend & Hlt).
  simpl in Hurls, Hreq, Hfiles, Hsaved, Hindex, Hcount, Hend, Hlt.
  exists w0, (write_index (index_entries a) w1), urls, fetched, a.
  set (acc := accepted (judged (requests w0) fetched)) in *.
  assert (Hlen : length (saved_pages a) = length acc)
    by (by rewrite Hsaved, pages_from_length).
  assert (Hle : length (saved_pages a) ≤ MIN_PAGES).
  { destruct fetched as [|u fetched _] using rev_ind; [subst acc; simpl in *; lia|].
    specialize (Hlt (length fetched)). rewrite length_app in Hlt. simpl in Hlt.
    rewrite take_app_length in Hlt.
    assert (length acc ≤ S (length (accepted (judged (requests w0) fetched)))); [|lia].
    subst acc. clear. generalize (requests w0). induction fetched as [|v l IH]; intros log; simpl.
    - unfold accepted. simpl. destruct (judge log u); simpl; lia.
    - unfold accepted in *. simpl. specialize (IH (log ++ [v])).
      destruct (judge log v); simpl; lia. }
  split_and!; [done..| | | |].
  - lia.
  - rewrite Hsaved, pages_from_numbers, pages_from_length. done.
  - intros p Hp. rewrite Hsaved in Hp.
    apply pages_from_filenames in Hp as [Hname Hrange]. split_and!.
    + done.
    + apply nat_of_format_04d.
    + intros Hmin. apply format_04d_width. lia.
  - exists (files_from 0 acc), (index_path, index_header ++ index_body (index_entries a)).
    split.
    + simpl. rewrite Hfiles, Hfiles0, <- app_assoc. done.
    + rewrite Hsaved. apply files_from_paths.
Qed.

(** C2, as the code has it.  Every URL the extractor returns, and so
    every URL of the candidate set, has the network location of the base
    URL (the scheme is not compared), and its lower-cased path ends with
    no blocked extension, does not contain [rss], is neither [/news] nor
    [/news/], and contains [/news]; the path as it stands then does not
    contain [rss] and is not the listing root either. *)
Theorem extracted_links_in_scope :
  (∀ html links u,
     extract_article_links html = Ok links → u ∈ links →
     in_scope u ∧
     ¬ has_infix (py "rss") (path (urlparse u)) ∧
     path (urlparse u) ≠ py "/news" ∧
     path (urlparse u) ≠ py "/news/") ∧
  (∀ w w0 article_urls u,
     collect_article_urls w = Ok (w0, article_urls) → u ∈ article_urls →
     in_scope u ∧
     ¬ has_infix (py "rss") (path (urlparse u)) ∧
     path (urlparse u) ≠ py "/news" ∧
     path (urlparse u) ≠ py "/news/").
Proof.
  split.
  - intros html links u Hex Hu.
    pose proof (extract_article_links_in_scope html links u Hex Hu) as Hs.
    split; [done|by apply in_scope_path].
  - intros w w0 urls u Hrun Hu.
    destruct (collect_article_urls_spec w)
      as (m & w1 & urls1 & Hcollect & _ & _ & _ & _ & _ & Hscope).
    rewrite Hcollect in Hrun. injection Hrun as <- <-.
    split; [by apply Hscope|by apply in_scope_path, Hscope].
Qed.

(** C3, as the code has it.  Every run ends with the index written last:
    two header lines (the column labels, then a separator), then one
    record per saved page, in ascending order of the numbers 1, 2, ...;
    the records are as many as the page files written during the run,
    which have distinct paths (and, the index being named [index.txt],
    paths other than that of the index).  The number of lines after the
    header is that number too, provided no archived URL contains a line
    feed. *)
Theorem index_matches_files (w : World) :
  ∃ w' article_urls a page_files,
    crawl_run w = Ok (w', article_urls, a) ∧
    files w' = files w ++ page_files ++
      [(index_path, index_header ++ index_body (index_entries a))] ∧
    length (index_entries a) = length page_files ∧
    NoDup (map fst page_files) ∧
    map fst page_files = map (λ p, os_path_join OUTPUT_DIR p.2) (saved_pages a) ∧
    index_entries a =
      map (λ p, str_of_nat p.1.1 ++ TAB ++ p.1.2) (saved_pages a) ∧
    map (λ p, p.1.1) (saved_pages a) = seq 1 (length page_files) ∧
    index_header =
      py "# File Number" ++ TAB ++ py "URL" ++ LF ++
      py "#" ++ replicate 60 61%N ++ LF ∧
    line_count index_header = 2 ∧
    (INDEX_FILE = py "index.txt" → index_path ∉ map fst page_files) ∧
    ((∀ p, p ∈ saved_pages a → 10%N ∉ p.1.2) →
     line_count (index_header ++ index_body (index_entries a)) - 2 =
     length page_files).
Proof.
  destruct (crawl_run_spec w)
    as (m & w0 & urls & fetched & rest & w1 & a & Hcollect & Hreq0 & Hfiles0 & _ & Hout & Hrun & _).
  destruct Hout as (Hurls & Hreq & Hfiles & Hsaved & Hindex & Hcount & Hend & Hlt).
  simpl in Hurls, Hreq, Hfiles, Hsaved, Hindex, Hcount, Hend, Hlt.
  set (acc := accepted (judged (requests w0) fetched)) in *.
  exists (write_index (index_entries a) w1), urls, a, (files_from 0 acc).
  split_and!.
  - done.
  - simpl. rewrite Hfiles, Hfiles0, <- app_assoc. done.
  - by rewrite Hindex, length_map, pages_from_length, files_from_length.
  - apply files_from_NoDup.
  - rewrite Hsaved. apply files_from_paths.
  - by rewrite Hindex, Hsaved.
  - by rewrite Hsaved, pages_from_numbers, files_from_length.
  - done.
  - apply line_count_header.
  - intros Hname. rewrite files_from_numbers.
    intros (n & Hn & _)%list_elem_of_fmap. by apply index_path_not_page in Hn.
  - intros Hlf. rewrite line_count_app, line_count_header, Hindex.
    rewrite index_body_lines by (by rewrite <- Hsaved).
    rewrite pages_from_length, files_from_length. lia.
Qed.

Lemma accepted_all (log : list str) (urls : list str) :
  (∀ log u, u ∈ urls → ∃ html, judge log u = Saved html) →
  length (accepted (judged log urls)) = length urls.
Proof.
  revert log. induction urls as [|u urls IH]; intros log Hall; [done|].
  cbn [judged]. destruct (Hall log u) as [html ->]; [by left|].
  unfold accepted in *. cbn [omap]. simpl. rewrite IH; [done|].
  intros log' u' Hu'. apply Hall. by right.
Qed.

Lemma accepted_take_le (k : nat) (trace : list (str * verdict)) :
  length (accepted (take k trace)) ≤ length (accepted trace).
Proof.
  revert k. induction trace as [|[u v] trace IH]; intros [|k]; simpl; try lia.
  specialize (IH k). unfold accepted in *. simpl. destruct v; simpl; lia.
Qed.

Lemma accepted_snoc_le (trace : list (str * verdict)) (x : str * verdict) :
  length (accepted (trace ++ [x])) ≤ S (length (accepted trace)).
Proof.
  unfold accepted. rewrite omap_app, length_app. destruct x as [u []]; simpl; lia.
Qed.

(** The loop never saves more than the target. *)
Lemma frontier_outcome_bound (urls : list str) (w : World)
    (fetched rest : list str) (w' : World) (a : Archive) :
  frontier_outcome urls w empty_archive fetched rest w' a →
  length (saved_pages a) = length (accepted (judged (requests w) fetched)) ∧
  length (saved_pages a) ≤ MIN_PAGES.
Proof.
  intros (Hurls & Hreq & Hfiles & Hsaved & Hindex & Hcount & Hend & Hlt).
  simpl in *. rewrite Hsaved, pages_from_length. split; [done|].
  destruct fetched as [|u fetched _] using rev_ind; [simpl; lia|].
  specialize (Hlt (length fetched)). rewrite length_app in Hlt. simpl in Hlt.
  rewrite take_app_length in Hlt.
  assert (judged (requests w) (fetched ++ [u]) =
          judged (requests w) fetched ++ [(u, judge (requests w ++ fetched) u)]) as ->.
  { clear. generalize (requests w). induction fetched as [|v l IH]; intros log; simpl.
    - by rewrite app_nil_r.
    - by rewrite IH, <- app_assoc. }
  pose proof (accepted_snoc_le (judged (requests w) fetched)
                (u, judge (requests w ++ fetched) u)). lia.
Qed.

(** C6.  Given any candidate set, the frontier loop returns.  It fetches
    candidates one by one, each while fewer than [MIN_PAGES] pages are
    saved, and stops when the candidates are used up or the count is
    [MIN_PAGES], so that it never saves more than that; when every
    candidate is fetched successfully and classified as text it saves
    [min (size article_urls) MIN_PAGES] pages and writes as many index
    records.  [crawl] returns the number of pages saved, which is the
    number of page files written. *)
Theorem frontier_terminates (article_urls : gset str) (w : World) :
  ∃ fetched rest w' a,
    archive_frontier article_urls w = Ok (w', a) ∧
    set_iter article_urls = fetched ++ rest ∧
    requests w' = requests w ++ fetched ∧
    length (saved_pages a) ≤ MIN_PAGES ∧
    (rest = [] ∨ length (saved_pages a) = MIN_PAGES) ∧
    (∀ k, k < length fetched →
       length (accepted (judged (requests w) (take k fetched))) < MIN_PAGES) ∧
    length (saved_pages a) = length (accepted (judged (requests w) fetched)) ∧
    length (index_entries a) = length (saved_pages a) ∧
    ((∀ log u, u ∈ article_urls → ∃ html, judge log u = Saved html) →
     length (saved_pages a) = size article_urls `min` MIN_PAGES) ∧
    ∀ w0, ∃ w1 urls a1 page_files index_file,
      crawl_run w0 = Ok (w1, urls, a1) ∧
      crawl w0 = Ok (length (saved_pages a1), w1) ∧
      files w1 = files w0 ++ page_files ++ [index_file] ∧
      length (saved_pages a1) = length page_files.
Proof.
  destruct (archive_frontier_spec article_urls w)
    as (fetched & rest & w1 & a & Harch & Hout).
  destruct (frontier_outcome_bound _ _ _ _ _ _ Hout) as [Hlen Hle].
  destruct Hout as (Hurls & Hreq & Hfiles & Hsaved & Hindex & Hcount & Hend & Hlt).
  simpl in Hurls, Hreq, Hfiles, Hsaved, Hindex, Hcount, Hend, Hlt.
  exists fetched, rest, (write_index (index_entries a) w1), a.
  split_and!; try done.
  - destruct Hend as [?|?]; [by left|right; lia].
  - by rewrite Hindex, Hsaved, length_map.
  - intros Hall.
    assert (Hacc : length (accepted (judged (requests w) fetched)) = length fetched).
    { apply accepted_all. intros log u Hu.
      apply Hall, set_iter_elem. rewrite Hurls. set_solver. }
    rewrite <- set_iter_length, Hurls, length_app.
    destruct Hend as [->|Hfull]; simpl; lia.
  - intros w0.
    destruct (crawl_run_spec w0)
      as (m & w2 & urls & fetched' & rest' & w3 & a1 & _ & _ & Hfiles0 & _ & Hout' & Hrun & Hcrawl).
    destruct Hout' as (_ & _ & Hfiles' & Hsaved' & _).
    simpl in Hfiles', Hsaved'.
    eexists _, urls, a1, _, _. split_and!; [done|done| |].
    + simpl. rewrite Hfiles', Hfiles0, <- app_assoc. done.
    + by rewrite Hsaved', pages_from_length, files_from_length.
Qed.

Lemma in_scope_not_listing (u v : str) :
  in_scope u → at_listing_root v → u ≠ v.
Proof.
  intros (_ & _ & _ & Hr1 & Hr2 & _) [Hv|Hv] ->; congruence.
Qed.

(** Over a whole run no URL is requested twice, as long as the URL
    parser sees the listing root in the listing URLs. *)
Lemma run_requests_NoDup (w : World) :
  listing_at_root →
  ∃ w' article_urls a new_requests,
    crawl_run w = Ok (w', article_urls, a) ∧
    requests w' = requests w ++ new_requests ∧
    NoDup new_requests.
Proof.
  intros [Hroot Hpages].
  destruct (crawl_run_spec w)
    as (m & w0 & urls & fetched & rest & w1 & a & _ & Hreq0 & _ & Hscope & Hout & Hrun & _).
  destruct Hout as (Hurls & Hreq & _).
  exists (write_index (index_entries a) w1), urls, a,
    (NEWS_URL :: map paginated_url (seq 1 m) ++ fetched).
  split_and!; [done| |].
  - simpl. rewrite Hreq, Hreq0, <- app_assoc. done.
  - assert (Hfetched : ∀ u, u ∈ fetched → in_scope u).
    { intros u Hu. apply Hscope, set_iter_elem. rewrite Hurls. set_solver. }
    apply NoDup_cons. split.
    + intros [Hin|Hin]%elem_of_app.
      * apply list_elem_of_fmap in Hin as (n & Hn & _).
        by apply (paginated_url_not_listing n).
      * apply (in_scope_not_listing NEWS_URL NEWS_URL); [by apply Hfetched|done|done].
    + apply NoDup_app. split_and!.
      * apply NoDup_fmap_2_strong; [|apply NoDup_seq].
        intros i j _ _. apply paginated_url_inj.
      * intros u (n & -> & _)%list_elem_of_fmap Hin.
        apply (in_scope_not_listing (paginated_url n) (paginated_url n));
          [by apply Hfetched|done|done].
      * pose proof (set_iter_NoDup urls) as Hnd. rewrite Hurls in Hnd.
        by apply NoDup_app in Hnd as (? & _ & _).
Qed.

(** C7, as the code has it.  The candidates are visited in an order
    without repetition, and the loop fetches an initial part of it: no
    candidate is fetched twice, whatever the verdict on it, and a
    candidate is left unfetched only when the loop stopped with
    [MIN_PAGES] pages saved.  Over a whole run, listing requests
    included, no URL is requested twice (the listing URLs being at the
    listing root for the URL parser, they are no candidates). *)
Theorem candidates_fetched_at_most_once (article_urls : gset str) (w : World) :
  ∃ fetched rest w' a,
    archive_frontier article_urls w = Ok (w', a) ∧
    NoDup (set_iter article_urls) ∧
    (∀ u, u ∈ set_iter article_urls ↔ u ∈ article_urls) ∧
    set_iter article_urls = fetched ++ rest ∧
    requests w' = requests w ++ fetched ∧
    map fst (judged (requests w) fetched) = fetched ∧
    NoDup fetched ∧
    (∀ u, u ∈ fetched → u ∈ article_urls ∧ u ∉ rest) ∧
    (∀ u, u ∈ article_urls →
       u ∈ fetched ∨ (length (saved_pages a) = MIN_PAGES ∧ u ∉ fetched)) ∧
    (length (saved_pages a) < MIN_PAGES → ∀ u, u ∈ article_urls → u ∈ fetched) ∧
    (listing_at_root →
     ∀ w0, ∃ w1 urls a1 new_requests,
       crawl_run w0 = Ok (w1, urls, a1) ∧
       requests w1 = requests w0 ++ new_requests ∧
       NoDup new_requests).
Proof.
  destruct (archive_frontier_spec article_urls w)
    as (fetched & rest & w1 & a & Harch & Hout).
  destruct (frontier_outcome_bound _ _ _ _ _ _ Hout) as [Hlen Hle].
  destruct Hout as (Hurls & Hreq & Hfiles & Hsaved & Hindex & Hcount & Hend & Hlt).
  pose proof (set_iter_NoDup article_urls) as Hnd.
  rewrite Hurls in Hnd. apply NoDup_app in Hnd as (Hnd1 & Hdisj & Hnd2).
  exists fetched, rest, (write_index (index_entries a) w1), a.
  split_and!; try done.
  - rewrite Hurls. by apply NoDup_app.
  - apply set_iter_elem.
  - apply judged_urls.
  - intros u Hu. split; [|by apply Hdisj].
    apply set_iter_elem. rewrite Hurls. set_solver.
  - intros u Hu. apply set_iter_elem in Hu. rewrite Hurls in Hu.
    apply elem_of_app in Hu as [Hu|Hu]; [by left|right].
    split; [|intros Hf; by apply (Hdisj u)].
    destruct Hend as [->|Hfull]; [by apply elem_of_nil in Hu|lia].
  - intros Hless u Hu. apply set_iter_elem in Hu. rewrite Hurls in Hu.
    destruct Hend as [->|Hfull]; [|lia]. by rewrite app_nil_r in Hu.
  - intros Hroot w0. by apply run_requests_NoDup.
Qed.

End Claims.

(** ** The listing URLs under the model of [urllib.parse] *)

Module UrllibFacts.

(** Replaces the string literals of the goal by their code points. *)
Ltac eval_literals :=
  repeat match goal with
  | |- context [py ?s] => let v := eval vm_compute in (py s) in change (py s) with v
  end.

Lemma split_first_absent (c : N) (s : str) : c ∉ s → Urllib.split_first c s = None.
Proof.
  induction s as [|d s IH]; [done|]. intros [Hne Hnin]%not_elem_of_cons. simpl.
  destruct (N.eqb_spec c d) as [->|_]; [done|]. by rewrite IH.
Qed.

Lemma remove_unsafe_digits (ds : str) :
  Forall (λ c, (48 ≤ c ≤ 57)%N) ds → Urllib.remove_unsafe ds = ds.
Proof.
  unfold Urllib.remove_unsafe. induction 1 as [|d ds Hd _ IH]; [done|].
  rewrite filter_cons_True by lia. by rewrite IH.
Qed.

Lemma digits_without (c : N) (ds : str) :
  Forall (λ c, (48 ≤ c ≤ 57)%N) ds → ¬ (48 ≤ c ≤ 57)%N → c ∉ ds.
Proof. intros Hds Hc Hin. rewrite Forall_forall in Hds. by apply Hc, Hds. Qed.

(** The path of a page of the listing is the listing root. *)
Lemma urlparse_listing_page (ds : str) :
  Forall (λ c, (48 ≤ c ≤ 57)%N) ds →
  path (Urllib.urlparse (py "https://media.kpfu.ru/news?page=" ++ ds)) = py "/news".
Proof.
  intros Hds. unfold Urllib.urlparse, Urllib.urlparse_with, Urllib.urlsplit.
  set (p := py "https://media.kpfu.ru/news?page=").
  assert (Hstrip : Urllib.lstrip_c0 (p ++ ds) = p ++ ds) by reflexivity.
  assert (Hsafe : Urllib.remove_unsafe (p ++ ds) = p ++ ds).
  { unfold Urllib.remove_unsafe. rewrite filter_app. fold (Urllib.remove_unsafe ds).
    rewrite (remove_unsafe_digits ds) by done. f_equal. }
  rewrite Hstrip, Hsafe. clear Hstrip Hsafe. subst p.
  eval_literals.
  cbn -[Urllib.str_in contains Urllib.uses_params].
  rewrite (split_first_absent 35 ds) by (apply digits_without; [done|lia]).
  cbn -[Urllib.str_in contains Urllib.uses_params].
  vm_compute. reflexivity.
Qed.

Lemma listing_at_root_source :
  listing_at_root (urllib := Urllib.lib) (cfg := source_config).
Proof.
  split.
  - left. vm_compute. reflexivity.
  - intros n. left.
    change (lower (path (Urllib.urlparse
                           (py "https://media.kpfu.ru/news?page=" ++ str_of_nat n))) =
            py "/news").
    rewrite urlparse_listing_page by apply str_of_nat_digits. reflexivity.
Qed.

End UrllibFacts.

(** ** The crawler on test data *)

Module Runs.
Import Examples.

#[local] Existing Instance PlainHtml.parser.
#[local] Existing Instance Urllib.lib.

(** The examples of the classifier: three letters in a row are enough,
    two-letter words are not, Cyrillic text is accepted, and a short text
    is rejected. *)
Lemma is_text_page_decision_witness :
  is_text_page (Some abc_text) = Ok true ∧
  is_text_page (Some two_letter_text) = Ok false ∧
  is_text_page (Some cyrillic_text) = Ok true ∧
  is_text_page (Some (py "abc")) = Ok false.
Proof.
  destruct (is_text_page_decision abc_text) as (_ & _ & Habc & _).
  destruct (is_text_page_decision two_letter_text) as (_ & _ & _ & Htwo).
  destruct (is_text_page_decision cyrillic_text) as (_ & Hcyr & _).
  destruct (is_text_page_decision (py "abc")) as (Hshort & _).
  split_and!.
  - apply Habc; [discriminate|vm_compute; lia| |].
    + rewrite <- cyrillic_search_spec. vm_compute. discriminate.
    + apply latin_search_spec. vm_compute. reflexivity.
  - apply Htwo; [vm_compute; lia| |].
    + rewrite <- cyrillic_search_spec. vm_compute. discriminate.
    + rewrite <- latin_search_spec. vm_compute. discriminate.
  - apply Hcyr; [discriminate|vm_compute; lia|].
    apply cyrillic_search_spec. vm_compute. reflexivity.
  - apply Hshort. vm_compute. lia.
Defined.

(** A link over plain HTTP to the host of the base URL is returned,
    although its scheme is not the scheme of the base URL. *)
Lemma extractor_accepts_other_scheme :
  extract_article_links (cfg := source_config)
    (Some (PlainHtml.anchor http_link)) = Ok {[ http_link ]} ∧
  scheme (urlparse http_link) = py "http" ∧
  scheme (urlparse (@BASE_URL source_config)) = py "https" ∧
  ¬ in_scope_as_specified (cfg := source_config) http_link.
Proof.
  split_and!; [vm_compute; reflexivity..|].
  intros [[Hscheme _] _]. vm_compute in Hscheme. discriminate.
Defined.

(** A link of the article namespace is returned, and it is in scope. *)
Lemma extracted_links_in_scope_witness :
  in_scope (cfg := source_config) (py "https://media.kpfu.ru/news/item") ∧
  path (urlparse (py "https://media.kpfu.ru/news/item")) ≠ py "/news".
Proof.
  destruct (extracted_links_in_scope (cfg := source_config) (env := one_article))
    as [Hextract _].
  destruct (Hextract (Some (PlainHtml.anchor (py "/news/item")))
              {[ py "https://media.kpfu.ru/news/item" ]}
              (py "https://media.kpfu.ru/news/item"))
    as (Hscope & _ & Hroot & _).
  - vm_compute. reflexivity.
  - apply elem_of_singleton_2. reflexivity.
  - split; [exact Hscope|exact Hroot].
Defined.

(** Extracting twice from a page with the same link twice. *)
Lemma extract_article_links_idempotent_witness :
  let html := PlainHtml.anchor (py "/news/item") ++ PlainHtml.anchor (py "news/item") in
  let links : gset str := {[ py "https://media.kpfu.ru/news/item" ]} in
  extract_article_links (cfg := source_config) (Some html) = Ok links ∧
  (five_urls ∪ links) ∪ links = five_urls ∪ links ∧
  fold_left (extract_step (cfg := source_config)) (find_all_a_href (bs_parse html)) links = links.
Proof.
  intros html links.
  assert (Hex : extract_article_links (cfg := source_config) (Some html) = Ok links)
    by (vm_compute; reflexivity).
  destruct (extract_article_links_idempotent (cfg := source_config)
              (Some html) links links five_urls Hex Hex) as (_ & Hmerge & Hagain).
  split_and!; [exact Hex|exact Hmerge|]. apply Hagain. reflexivity.
Defined.

(** A response with status 304 is not in the 2xx class, and its body is
    returned all the same. *)
Lemma fetch_returns_body_on_304 :
  requests_get (Env := not_modified) [] (py "https://media.kpfu.ru/news") =
    Response 304 (py "cached") ∧
  ¬ (200 ≤ 304 < 300)%Z ∧
  (fetch_page (env := not_modified) (py "https://media.kpfu.ru/news") fresh).1 =
    Some (py "cached").
Proof. split_and!; [reflexivity|lia|reflexivity]. Defined.

(** The fetcher on a 404 and on a 200. *)
Lemma fetch_page_outcome_witness :
  (fetch_page (env := one_article) (py "https://media.kpfu.ru/news?page=1") fresh).1 = None ∧
  (fetch_page (env := one_article) (py "https://media.kpfu.ru/news/item") fresh).1 =
    Some article_text.
Proof.
  split.
  - destruct (fetch_page_outcome (env := one_article)
                (py "https://media.kpfu.ru/news?page=1") fresh)
      as (_ & _ & _ & Herr & _).
    apply (Herr 404%Z []); [reflexivity|lia].
  - destruct (fetch_page_outcome (env := one_article)
                (py "https://media.kpfu.ru/news/item") fresh)
      as (_ & _ & _ & _ & Hok).
    apply (Hok 200%Z article_text); [reflexivity|lia].
Defined.

(** Page 3 gives no link: the walk requests the listing and the pages 1,
    2 and 3, and never page 4. *)
Lemma pagination_stops_witness :
  ∃ w' article_urls,
    collect_article_urls (env := three_pages) (cfg := source_config) fresh =
      Ok (w', article_urls) ∧
    requests w' =
      [py "https://media.kpfu.ru/news"; py "https://media.kpfu.ru/news?page=1";
       py "https://media.kpfu.ru/news?page=2"; py "https://media.kpfu.ru/news?page=3"] ∧
    ∀ j, 3 < j → paginated_url (cfg := source_config) j ∉ requests w'.
Proof.
  destruct (pagination_stops (env := three_pages) (cfg := source_config) fresh)
    as (m & w' & urls & Hrun & Hreq & Hm & Hgo & Hstop & Hlast & H30).
  exists w', urls. split; [exact Hrun|].
  assert (Hw : requests w' =
      [py "https://media.kpfu.ru/news"; py "https://media.kpfu.ru/news?page=1";
       py "https://media.kpfu.ru/news?page=2"; py "https://media.kpfu.ru/news?page=3"]).
  { change (requests w') with
      (match Ok (w', urls) with Ok (w, _) => requests w | Raise _ => [] end).
    rewrite <- Hrun. vm_compute. reflexivity. }
  split; [exact Hw|].
  destruct (Hstop 3) as [_ Hnever]; [lia| |].
  - right. left. vm_compute. reflexivity.
  - intros j Hj Hin. apply (Hnever j Hj).
    rewrite Hreq in Hin. exact Hin.
Defined.

(** Five candidates, a target of ten, every candidate an article: five
    pages are saved and the index has five records. *)
Lemma frontier_terminates_witness :
  ∃ w' a,
    archive_frontier (env := all_articles) (cfg := ten_pages) five_urls fresh =
      Ok (w', a) ∧
    size five_urls = 5 ∧
    length (saved_pages a) = 5 ∧
    length (index_entries a) = 5 ∧
    length (requests w') = 5.
Proof.
  destruct (frontier_terminates (env := all_articles) (cfg := ten_pages) five_urls fresh)
    as (fetched & rest & w' & a & Hrun & Hurls & Hreq & Hle & Hend & Hlt & Hacc & Hidx & Hall & _).
  assert (Hsize : size five_urls = 5) by (vm_compute; reflexivity).
  assert (Hsaved : length (saved_pages a) = 5).
  { rewrite Hall, Hsize; [reflexivity|].
    intros log u _. exists article_text. vm_compute. reflexivity. }
  exists w', a. split_and!; [exact Hrun|exact Hsize|exact Hsaved|congruence|].
  destruct Hend as [->|Hfull].
  - rewrite Hreq, app_nil_r in *. simpl.
    rewrite <- Hurls. exact Hsize.
  - exfalso. rewrite Hsaved in Hfull. vm_compute in Hfull. discriminate Hfull.
Defined.

(** With 101 candidates that are all articles and the target of the
    source, 100, the loop stops with one candidate never fetched. *)
Lemma candidate_never_fetched :
  ∃ w' a,
    archive_frontier (env := all_articles) (cfg := source_config) many_urls fresh =
      Ok (w', a) ∧
    size many_urls = 101 ∧
    length (requests w') = 100 ∧
    Exists (λ u, u ∉ requests w') (elements many_urls).
Proof.
  assert (H : match archive_frontier (env := all_articles) (cfg := source_config)
                      many_urls fresh with
              | Ok (w', a) =>
                bool_decide (size many_urls = 101 ∧ length (requests w') = 100 ∧
                             Exists (λ u, u ∉ requests w') (elements many_urls))
              | Raise _ => false
              end = true) by (vm_compute; reflexivity).
  destruct (archive_frontier many_urls fresh) as [[w' a]|]; [|discriminate H].
  exists w', a. split; [reflexivity|]. apply bool_decide_eq_true in H. exact H.
Defined.

(** Five candidates are each fetched once, and a whole run on the
    three-page site requests no URL twice. *)
Lemma candidates_fetched_at_most_once_witness :
  (∃ w' a,
     archive_frontier (env := all_articles) (cfg := source_config) five_urls fresh =
       Ok (w', a) ∧
     NoDup (requests w')) ∧
  (∃ w' article_urls a,
     crawl_run (env := three_pages) (cfg := source_config) fresh =
       Ok (w', article_urls, a) ∧
     NoDup (requests w')).
Proof.
  destruct (candidates_fetched_at_most_once (env := all_articles) (cfg := source_config)
              five_urls fresh)
    as (fetched & rest & w' & a & Hrun & _ & _ & _ & Hreq & _ & Hnd & _).
  destruct (candidates_fetched_at_most_once (env := three_pages) (cfg := source_config)
              ∅ fresh)
    as (f2 & r2 & w2 & a2 & _ & _ & _ & _ & _ & _ & _ & _ & _ & _ & Hwhole).
  destruct (Hwhole UrllibFacts.listing_at_root_source fresh)
    as (w1 & urls & a1 & new_requests & Hrun1 & Hreq1 & Hnd1).
  split.
  - exists w', a. split; [exact Hrun|]. rewrite Hreq. exact Hnd.
  - exists w1, urls, a1. split; [exact Hrun1|]. rewrite Hreq1. exact Hnd1.
Defined.

(** A URL with a line feed is archived: the index has one record and one
    page file was written, but two lines follow the header. *)
Lemma index_lines_exceed_records :
  ∃ w' article_urls a page_file index,
    crawl_run (env := lf_site) (cfg := source_config) fresh =
      Ok (w', article_urls, a) ∧
    article_urls = {[ lf_link ]} ∧
    files w' = [page_file; (index_path (env := lf_site) (cfg := source_config), index)] ∧
    length (index_entries a) = 1 ∧
    line_count index - 2 = 2.
Proof.
  eexists _, _, _, _, _. split_and!; [vm_compute; reflexivity..].
Defined.

(** A run that archives one page: three lines in the index. *)
Lemma index_matches_files_witness :
  ∃ w' article_urls a index,
    crawl_run (env := one_article) (cfg := source_config) fresh =
      Ok (w', article_urls, a) ∧
    last (files w') = Some (index_path (env := one_article) (cfg := source_config), index) ∧
    line_count index - 2 = 1 ∧
    length (files w') = 2 ∧
    (∀ page_files,
       files w' = page_files ++
         [(index_path (env := one_article) (cfg := source_config), index)] →
       index_path (env := one_article) (cfg := source_config) ∉ map fst page_files).
Proof.
  destruct (index_matches_files (env := one_article) (cfg := source_config) fresh)
    as (w' & urls & a & page_files & Hrun & Hfiles & Hlen & _ & _ & Hentries & Hseq & _ & _ & Hpath & Hlines).
  assert (Hsaved : saved_pages a =
    [(1, py "https://media.kpfu.ru/news/item", py "page_0001.txt")]).
  { change (saved_pages a) with
      (match Ok (w', urls, a) with Ok (_, _, a) => saved_pages a | Raise _ => [] end).
    rewrite <- Hrun. vm_compute. reflexivity. }
  assert (Hone : length page_files = 1).
  { rewrite <- Hlen, Hentries, Hsaved. reflexivity. }
  exists w', urls, a, (index_header ++ index_body (index_entries a)).
  split_and!.
  - exact Hrun.
  - rewrite Hfiles, app_assoc. apply last_snoc.
  - rewrite Hlines, Hone; [reflexivity|].
    rewrite Hsaved. intros p Hp. apply list_elem_of_singleton in Hp. subst p.
    apply (bool_decide_unpack _). vm_compute. exact I.
  - rewrite Hfiles, !length_app, Hone. reflexivity.
  - intros page_files' Hfiles'. rewrite Hfiles in Hfiles'.
    apply app_inj_tail in Hfiles' as [<- _]. apply Hpath. reflexivity.
Defined.

(** The numbering on the same run. *)
Lemma sequence_numbers_dense_witness :
  ∃ w' article_urls a,
    crawl_run (env := one_article) (cfg := source_config) fresh =
      Ok (w', article_urls, a) ∧
    map (λ p, p.1.1) (saved_pages a) = seq 1 (length (saved_pages a)) ∧
    ∀ p, p ∈ saved_pages a → length (format_04d p.1.1) = 4.
Proof.
  destruct (sequence_numbers_dense (env := one_article) (cfg := source_config) fresh)
    as (w0 & w' & urls & fetched & a & _ & Hrun & _ & _ & _ & Hseq & Hnames & _).
  exists w', urls, a. split_and!; [exact Hrun|exact Hseq|].
  intros p Hp. destruct (Hnames p Hp) as (_ & _ & Hwidth). apply Hwidth.
  vm_compute. lia.
Defined.

End Runs.

(** * Further properties of the code *)

(** ** The extractor, exactly *)

Section ExtractorExact.
Context {parser : HtmlParser} {urllib : UrlLib} {cfg : Config}.

Lemma extract_step_exact (href u : str) :
  extract_step ∅ href = {[u]} ↔
  startswith href (py "#") = false ∧
  startswith href (py "javascript:") = false ∧
  u = urljoin BASE_URL href ∧
  in_scope u.
Proof.
  split.
  - intros Hstep. pose proof (extract_step_in_scope href u Hstep) as Hscope.
    assert (Hu : u ∈ extract_step ∅ href) by set_solver.
    apply extract_step_elem in Hu as [Hu|[Hu _]]; [set_solver|].
    unfold extract_step in Hstep.
    destruct (startswith href (py "#")); [set_solver|].
    destruct (startswith href (py "javascript:")); [set_solver|]. done.
  - intros (Hfrag & Hjs & -> & Hnet & Hext & Hrss & Hr1 & Hr2 & Hnews).
    unfold extract_step. rewrite Hfrag, Hjs. cbn [orb]. cbv zeta in Hnet |- *.
    rewrite (proj2 (str_eqb_eq _ _) Hnet). cbn [negb].
    destruct (existsb _ _) eqn:Hex.
    { apply existsb_exists in Hex as (ext & Hin & Hends).
      exfalso. apply (Hext ext); [by apply list_elem_of_In|by apply endswith_suffix]. }
    rewrite lower_idemp.
    destruct (contains _ (py "rss")) eqn:Hc; [by apply contains_infix in Hc|].
    destruct (str_eqb _ (py "/news")) eqn:E1; [by apply str_eqb_eq in E1|].
    destruct (str_eqb _ (py "/news/")) eqn:E2; [by apply str_eqb_eq in E2|].
    cbn [orb]. rewrite (proj2 (contains_infix _ _) Hnews). set_solver.
Qed.

(** X1.  The extractor returns exactly the resolved references that pass
    its tests: a URL is in the result if and only if some anchor of the
    document, not starting with [#] or [javascript:], resolves to it
    against the base URL and the URL is in scope. *)
Theorem extract_article_links_exact (html : str) (links : gset str) (u : str) :
  extract_article_links (Some html) = Ok links →
  (u ∈ links ↔
   ∃ href, href ∈ find_all_a_href (bs_parse html) ∧
           startswith href (py "#") = false ∧
           startswith href (py "javascript:") = false ∧
           u = urljoin BASE_URL href ∧
           in_scope u).
Proof.
  rewrite extract_article_links_Some. intros [= <-].
  rewrite extract_fold_elem. split.
  - intros [?|(href & Hin & Hstep)]; [set_solver|].
    exists href. split; [done|]. by apply extract_step_exact.
  - intros (href & Hin & Hrest). right. exists href. split; [done|].
    by apply extract_step_exact.
Qed.

(** X2.  The result depends on the set of references only, not on their
    order or on repetitions: two documents with the same references give
    the same links, and the links of a list of references put together
    from two lists are the union of the links of each. *)
Theorem extract_article_links_anchor_set
    (html1 html2 : str) (links1 links2 : gset str) :
  extract_article_links (Some html1) = Ok links1 →
  extract_article_links (Some html2) = Ok links2 →
  (∀ href, href ∈ find_all_a_href (bs_parse html1) ↔
           href ∈ find_all_a_href (bs_parse html2)) →
  links1 = links2 ∧
  ∀ hrefs hrefs',
    fold_left extract_step (hrefs ++ hrefs') ∅ =
    fold_left extract_step hrefs ∅ ∪ fold_left extract_step hrefs' ∅.
Proof.
  rewrite !extract_article_links_Some. intros [= <-] [= <-] Hsame. split.
  - apply set_eq. intros u. rewrite !extract_fold_elem. set_solver.
  - intros hrefs hrefs'. apply set_eq. intros u.
    rewrite elem_of_union, !extract_fold_elem. set_solver.
Qed.

End ExtractorExact.

(** ** The walk, exactly *)

Section WalkExact.
Context {parser : HtmlParser} {urllib : UrlLib} {env : Env} {cfg : Config}.

Lemma links_of_falsy (html : option str) : truthy html = false → links_of html = ∅.
Proof. unfold links_of. by intros ->. Qed.

Lemma links_of_truthy (html : option str) (links : gset str) :
  truthy html = true → extract_article_links html = Ok links → links_of html = links.
Proof. unfold links_of. by intros -> ->. Qed.

Lemma pagination_loop_links (log : list str) (len : nat) :
  ∀ (start : nat) (w : World) (article_urls : gset str),
  1 ≤ start →
  requests w = log ++ map paginated_url (seq 1 (start - 1)) →
  ∃ m w' article_urls',
    pagination_loop (seq start len) w article_urls = Ok (w', article_urls') ∧
    m ≤ len ∧
    requests w' = requests w ++ map paginated_url (seq start m) ∧
    ∀ u, u ∈ article_urls' ↔
         u ∈ article_urls ∨
         ∃ n, start ≤ n < start + m ∧ u ∈ links_of (page_outcome log n).
Proof.
  induction len as [|len IH]; intros start w urls Hstart Hlog.
  - exists 0, w, urls. simpl. rewrite app_nil_r. split_and!; [done..|].
    intros u. split; [by left|]. intros [?|(n & ? & _)]; [done|lia].
  - cbn [seq pagination_loop].
    pose proof (fetch_page_world (paginated_url start) w) as [Hreq _].
    pose proof (fetch_page_result (paginated_url start) w) as Hres.
    destruct (fetch_page (paginated_url start) w) as [html w1].
    simpl in Hreq, Hres.
    assert (Hout : html = page_outcome log start)
      by (unfold page_outcome; by rewrite <- Hlog).
    assert (Hone : links_of html = ∅ →
      ∀ u, u ∈ urls ↔
           u ∈ urls ∨ ∃ n, start ≤ n < start + 1 ∧ u ∈ links_of (page_outcome log n)).
    { intros Hnone u. split; [by left|]. intros [?|(n & Hn & Hu)]; [done|].
      assert (n = start) as -> by lia. rewrite <- Hout, Hnone in Hu. set_solver. }
    destruct (truthy html) eqn:Htruthy; simpl.
    + destruct (extract_article_links_truthy html Htruthy) as [links Hlinks].
      rewrite Hlinks. simpl. case_bool_decide as Hempty.
      * exists 1, w1, urls. split_and!; [done|lia|done|].
        apply Hone. rewrite (links_of_truthy html links) by done. done.
      * destruct (IH (S start) w1 (urls ∪ links))
          as (m & w' & urls' & Hrun & Hm & Hreq' & Hiff).
        { lia. }
        { rewrite Hreq, Hlog, <- app_assoc. f_equal.
          replace (S start - 1) with (S (start - 1)) by lia.
          rewrite seq_snoc, map_app. simpl. do 3 f_equal. lia. }
        exists (S m), w', urls'. split_and!; [done|lia| |].
        -- rewrite Hreq', Hreq, <- app_assoc. done.
        -- intros u. rewrite Hiff, elem_of_union. split.
           ++ intros [[?|Hu]|(n & Hn & Hu)]; [by left|right..].
              ** exists start. split; [lia|].
                 by rewrite <- Hout, (links_of_truthy html links).
              ** exists n. split; [lia|done].
           ++ intros [?|(n & Hn & Hu)]; [by left; left|].
              destruct (decide (n = start)) as [->|Hne].
              ** left. right.
                 by rewrite <- Hout, (links_of_truthy html links) in Hu.
              ** right. exists n. split; [lia|done].
    + exists 1, w1, urls. split_and!; [done|lia|done|].
      apply Hone. by apply links_of_falsy.
Qed.

(** X3.  The candidates collected by the walk are exactly the links of
    the listing and of the pages it requested: nothing a fetched page
    links to is lost, and nothing else gets in.  (A page whose fetch
    failed or whose body is empty has no links.) *)
Theorem collected_urls_are_union (w : World) :
  ∃ m w' article_urls,
    collect_article_urls w = Ok (w', article_urls) ∧
    requests w' = requests w ++ NEWS_URL :: map paginated_url (seq 1 m) ∧
    ∀ u, u ∈ article_urls ↔
         u ∈ links_of (fetch_result (requests w) NEWS_URL) ∨
         ∃ n, 1 ≤ n ≤ m ∧
              u ∈ links_of (page_outcome (requests w ++ [NEWS_URL]) n).
Proof.
  unfold collect_article_urls, fetch_listing.
  pose proof (fetch_page_world NEWS_URL w) as [Hreq _].
  pose proof (fetch_page_result NEWS_URL w) as Hres.
  destruct (fetch_page NEWS_URL w) as [html w1]. simpl in Hreq, Hres.
  assert (∃ urls1, (if truthy html
                    then new_links ← extract_article_links html;
                         mret (w1, (∅ : gset str) ∪ new_links)
                    else mret (w1, ∅)) = Ok (w1, urls1) ∧
                   urls1 = links_of html) as (urls1 & -> & Hurls1).
  { destruct (truthy html) eqn:Htruthy.
    - destruct (extract_article_links_truthy html Htruthy) as [links Hlinks].
      rewrite Hlinks. simpl. eexists. split; [done|].
      rewrite (links_of_truthy html links) by done. set_solver.
    - eexists. split; [done|]. by rewrite links_of_falsy. }
  simpl.
  destruct (pagination_loop_links (requests w ++ [NEWS_URL]) max_pages_to_try 1 w1 urls1)
    as (m & w' & urls' & Hrun & Hm & Hreq' & Hiff).
  { done. }
  { simpl. by rewrite app_nil_r. }
  exists m, w', urls'. split_and!; [done| |].
  - rewrite Hreq', Hreq, <- app_assoc. done.
  - intros u. rewrite Hiff, Hurls1, Hres. split.
    + intros [?|(n & Hn & Hu)]; [by left|right]. exists n. split; [lia|done].
    + intros [?|(n & Hn & Hu)]; [by left|right]. exists n. split; [lia|done].
Qed.


(** X5.  The listing URL and the page URLs are pairwise distinct: the
    walk requests no listing URL twice. *)
Theorem listing_urls_distinct (m : nat) :
  NoDup (NEWS_URL :: map paginated_url (seq 1 m)) ∧
  ∀ i j, paginated_url i = paginated_url j → i = j.
Proof.
  split; [|apply paginated_url_inj].
  apply NoDup_cons. split.
  - intros (n & Hn & _)%list_elem_of_fmap. by apply (paginated_url_not_listing n).
  - apply NoDup_fmap_2_strong; [|apply NoDup_seq].
    intros i j _ _. apply paginated_url_inj.
Qed.

End WalkExact.

(** ** What is archived *)

Lemma separator_split (c : N) (a a' u u' : str) :
  c ∉ a → c ∉ a' → a ++ c :: u = a' ++ c :: u' → a = a' ∧ u = u'.
Proof.
  revert a'. induction a as [|x a IH]; intros [|x' a'] Ha Ha' E; simpl in E.
  - by injection E.
  - injection E as -> _. exfalso. apply Ha'. by left.
  - injection E as -> _. exfalso. apply Ha. by left.
  - injection E as -> E.
    apply not_elem_of_cons in Ha as [_ Ha]. apply not_elem_of_cons in Ha' as [_ Ha'].
    destruct (IH a' Ha Ha' E) as [-> ->]. done.
Qed.

Lemma str_of_nat_no (c : N) (n : nat) : ¬ (48 ≤ c ≤ 57)%N → c ∉ str_of_nat n.
Proof.
  intros Hc Hin. pose proof (str_of_nat_digits n) as Hd.
  rewrite Forall_forall in Hd. by apply Hc, Hd.
Qed.

(** X6.  An index record determines its sequence number and its URL,
    whatever the URL (it may contain tabs): the number is what stands
    before the first tab. *)
Theorem index_entry_unambiguous (n n' : nat) (url url' : str) :
  index_entry n url = index_entry n' url' → n = n' ∧ url = url'.
Proof.
  unfold index_entry, TAB. simpl. intros E.
  apply separator_split in E as [En ->]; [|apply str_of_nat_no; lia..].
  split; [by apply str_of_nat_inj|done].
Qed.

(** X7.  The body of the index can be read back: two lists of records
    whose URLs contain no line feed and which give the same index body are
    the same list. *)
Theorem index_body_unambiguous (records records' : list (nat * str)) :
  (∀ r, r ∈ records ++ records' → 10%N ∉ r.2) →
  index_body (map (λ r, index_entry r.1 r.2) records) =
  index_body (map (λ r, index_entry r.1 r.2) records') →
  records = records'.
Proof.
  assert (Hfree : ∀ r : nat * str, 10%N ∉ r.2 → 10%N ∉ index_entry r.1 r.2).
  { intros r Hr. unfold index_entry, TAB. rewrite !elem_of_app.
    intros [Hin|[Hin|Hin]]; [|by apply list_elem_of_singleton in Hin|done].
    revert Hin. apply str_of_nat_no. lia. }
  unfold index_body.
  revert records'. induction records as [|r records IH]; intros [|r' records'] Hlf E.
  - done.
  - simpl in E. by destruct (index_entry r'.1 r'.2).
  - simpl in E. by destruct (index_entry r.1 r.2).
  - simpl in E. unfold LF in E. rewrite <- !app_assoc in E. simpl in E.
    apply separator_split in E as [Er E].
    + apply index_entry_unambiguous in Er as [E1 E2].
      f_equal; [destruct r, r'; simpl in *; congruence|].
      apply IH; [|done]. intros q Hq. apply Hlf.
      rewrite elem_of_app in Hq. rewrite elem_of_app, !elem_of_cons. tauto.
    + apply Hfree, Hlf. rewrite elem_of_app, elem_of_cons. tauto.
    + apply Hfree, Hlf. rewrite elem_of_app, !elem_of_cons. tauto.
Qed.

Section ArchiveExact.
Context {parser : HtmlParser} {urllib : UrlLib} {env : Env} {cfg : Config}.

(** X8.  A page file is written inside the output directory, under the
    name of the page, and pages with different numbers go to different
    files. *)
Theorem page_files_never_collide (n m : nat) :
  OUTPUT_DIR `prefix_of` os_path_join OUTPUT_DIR (page_filename n) ∧
  page_filename n `suffix_of` os_path_join OUTPUT_DIR (page_filename n) ∧
  (os_path_join OUTPUT_DIR (page_filename n) =
   os_path_join OUTPUT_DIR (page_filename m) → n = m).
Proof.
  destruct (page_path 0) as (dir & Hdir & Hcase). split_and!.
  - rewrite Hdir. destruct Hcase as [->| ->].
    + by apply prefix_app_r.
    + rewrite <- app_assoc. by apply prefix_app_r.
  - rewrite Hdir. by apply suffix_app_r.
  - apply page_path_inj.
Qed.

Lemma judge_Saved_inv (log : list str) (url html : str) :
  judge log url = Saved html →
  fetch_result log url = Some html ∧ html ≠ [] ∧ is_text_page (Some html) = Ok true.
Proof.
  unfold judge. destruct (truthy (fetch_result log url)) eqn:Htruthy; [|done].
  simpl. destruct (is_text_page (fetch_result log url)) as [[|]|] eqn:Htext; [|done..].
  destruct (fetch_result log url) as [text|]; [|done].
  intros [= <-]. split_and!; [done| |done]. by destruct text.
Qed.

Lemma accepted_judged_fetched (log : list str) (urls : list str) :
  Forall (λ page, ∃ pre post,
            urls = pre ++ page.1 :: post ∧
            fetch_result (log ++ pre) page.1 = Some page.2 ∧
            page.2 ≠ [] ∧ is_text_page (Some page.2) = Ok true)
         (accepted (judged log urls)).
Proof.
  revert log. induction urls as [|u urls IH]; intros log; [constructor|].
  cbn [judged].
  assert (Htail : Forall (λ page, ∃ pre post,
            u :: urls = pre ++ page.1 :: post ∧
            fetch_result (log ++ pre) page.1 = Some page.2 ∧
            page.2 ≠ [] ∧ is_text_page (Some page.2) = Ok true)
         (accepted (judged (log ++ [u]) urls))).
  { eapply Forall_impl; [apply IH|]. intros page (pre & post & -> & Hf & Hrest).
    exists (u :: pre), post. split; [done|].
    by rewrite (cons_middle u log pre), app_assoc. }
  destruct (judge log u) as [| |html] eqn:Hv; [done..|].
  apply judge_Saved_inv in Hv as (Hf & Hne & Htext).
  change (accepted ((u, Saved html) :: judged (log ++ [u]) urls))
    with ((u, html) :: accepted (judged (log ++ [u]) urls)).
  constructor; [|done]. exists [], urls. by rewrite app_nil_r.
Qed.

Lemma pages_files_Forall2 (P : str → str → Prop) (c : nat) (acc : list (str * str)) :
  Forall (λ page, P page.1 page.2) acc →
  Forall2 (λ p f, f.1 = os_path_join OUTPUT_DIR p.2 ∧ P p.1.2 f.2)
          (pages_from c acc) (files_from c acc).
Proof.
  intros Hacc. revert c. induction Hacc as [|[u h] acc Hp _ IH]; intros c; simpl.
  - constructor.
  - constructor; [done|apply IH].
Qed.

(** X9.  Every page file holds, unchanged, the body that the fetch of
    its URL returned during the frontier loop, and that body is not empty
    and passed the classifier: nothing rejected or unavailable is ever
    written. *)
Theorem saved_files_are_fetched_text (w : World) :
  ∃ w0 w' article_urls a fetched page_files index_file,
    collect_article_urls w = Ok (w0, article_urls) ∧
    crawl_run w = Ok (w', article_urls, a) ∧
    requests w' = requests w0 ++ fetched ∧
    files w' = files w ++ page_files ++ [index_file] ∧
    Forall2 (λ p f,
               f.1 = os_path_join OUTPUT_DIR p.2 ∧
               ∃ pre post,
                 fetched = pre ++ p.1.2 :: post ∧
                 fetch_result (requests w0 ++ pre) p.1.2 = Some f.2 ∧
                 f.2 ≠ [] ∧ is_text_page (Some f.2) = Ok true)
            (saved_pages a) page_files.
Proof.
  destruct (crawl_run_spec w)
    as (m & w0 & urls & fetched & rest & w1 & a & Hcollect & _ & Hfiles0 & _ & Hout & Hrun & _).
  destruct Hout as (_ & Hreq & Hfiles & Hsaved & _).
  simpl in Hreq, Hfiles, Hsaved.
  eexists w0, _, urls, a, fetched, _, _. split_and!; [done|done|done| |].
  - simpl. rewrite Hfiles, Hfiles0, <- app_assoc. done.
  - rewrite Hsaved.
    apply (pages_files_Forall2
             (λ url html, ∃ pre post,
                fetched = pre ++ url :: post ∧
                fetch_result (requests w0 ++ pre) url = Some html ∧
                html ≠ [] ∧ is_text_page (Some html) = Ok true)).
    apply accepted_judged_fetched.
Qed.

Lemma accepted_urls_sublist (trace : list (str * verdict)) :
  map fst (accepted trace) `sublist_of` map fst trace.
Proof.
  induction trace as [|[u v] trace IH]; [constructor|].
  destruct v; simpl; [by apply sublist_cons..|].
  change (accepted ((u, Saved html) :: trace)) with ((u, html) :: accepted trace).
  simpl. by apply sublist_skip.
Qed.

(** X10.  No URL is archived twice: the URLs of the saved pages are
    pairwise distinct, they are candidates in scope, and they are saved
    in the order in which the loop visits the candidate set. *)
Theorem archived_urls_distinct (w : World) :
  ∃ w' article_urls a,
    crawl_run w = Ok (w', article_urls, a) ∧
    NoDup (map (λ p, p.1.2) (saved_pages a)) ∧
    map (λ p, p.1.2) (saved_pages a) `sublist_of` set_iter article_urls ∧
    ∀ p, p ∈ saved_pages a → p.1.2 ∈ article_urls ∧ in_scope p.1.2.
Proof.
  destruct (crawl_run_spec w)
    as (m & w0 & urls & fetched & rest & w1 & a & _ & _ & _ & Hscope & Hout & Hrun & _).
  destruct Hout as (Hurls & _ & _ & Hsaved & _). simpl in Hsaved.
  assert (Hsub : map (λ p, p.1.2) (saved_pages a) `sublist_of` set_iter urls).
  { rewrite Hsaved, pages_from_urls, Hurls.
    etrans; [apply accepted_urls_sublist|].
    rewrite judged_urls. by apply sublist_inserts_r. }
  eexists _, urls, a. split_and!; [done| |done|].
  - eapply sublist_NoDup; [apply set_iter_NoDup|done].
  - intros p Hp.
    assert (p.1.2 ∈ urls) as Hin.
    { apply set_iter_elem. eapply elem_of_sublist; [|done].
      apply list_elem_of_fmap. by exists p. }
    split; [done|by apply Hscope].
Qed.


(** X12.  When no fetch gives a body, the run makes two requests, the
    listing and its page 1, writes the index reduced to its header and
    nothing else, and returns 0. *)
Theorem crawl_without_network (w : World) :
  1 ≤ max_pages_to_try →
  (∀ log url, truthy (fetch_result log url) = false) →
  crawl w =
  Ok (0, {| requests := requests w ++ [NEWS_URL; paginated_url 1];
            files := files w ++ [(index_path, index_header)] |}).
Proof.
  intros Hmax Hfail.
  assert (Hfetch : ∀ url w1, ∃ html,
    fetch_page url w1 = (html, {| requests := requests w1 ++ [url]; files := files w1 |}) ∧
    truthy html = false).
  { intros url w1. pose proof (fetch_page_world url w1) as [Hr Hf].
    pose proof (fetch_page_result url w1) as Hres.
    destruct (fetch_page url w1) as [html [r f]]. simpl in *. subst.
    exists (fetch_result (requests w1) url). split; [done|apply Hfail]. }
  unfold crawl, crawl_run, collect_article_urls, fetch_listing.
  destruct (Hfetch NEWS_URL w) as (html & -> & ->). simpl.
  destruct max_pages_to_try as [|k]; [lia|]. cbn [seq pagination_loop].
  destruct (Hfetch (paginated_url 1) {| requests := requests w ++ [NEWS_URL]; files := files w |})
    as (html1 & -> & ->). simpl.
  unfold archive_frontier.
  assert (set_iter ∅ = []) as ->.
  { apply Permutation_nil_r. rewrite set_iter_perm. by rewrite elements_empty. }
  cbv [mbind result_bind mret result_ret write_index index_body empty_archive
       index_entries saved_pages map concat length frontier_loop requests files].
  by rewrite <- !app_assoc, app_nil_r.
Qed.

(** X13.  A run makes at most one request for the listing, one for
    each of the [max_pages_to_try] pages and one for each candidate, and
    at least one request for each page it saves. *)
Theorem run_request_bound (w : World) :
  ∃ w' article_urls a new_requests,
    crawl_run w = Ok (w', article_urls, a) ∧
    requests w' = requests w ++ new_requests ∧
    length new_requests ≤ 1 + max_pages_to_try + size article_urls ∧
    length (saved_pages a) + 1 ≤ length new_requests.
Proof.
  destruct (crawl_run_spec w)
    as (m & w0 & urls & fetched & rest & w1 & a & Hcollect & Hreq0 & _ & _ & Hout & Hrun & _).
  destruct (frontier_outcome_bound _ _ _ _ _ _ Hout) as [Hlen _].
  destruct Hout as (Hurls & Hreq & _).
  destruct (collect_article_urls_spec w)
    as (m' & w0' & urls' & Hcollect' & Hm & Hreq0' & _).
  rewrite Hcollect in Hcollect'. injection Hcollect' as <- <-.
  assert (m' = m) as ->.
  { rewrite Hreq0 in Hreq0'. apply app_inv_head in Hreq0'.
    apply (f_equal length) in Hreq0'. simpl in Hreq0'.
    rewrite !length_map, !length_seq in Hreq0'. lia. }
  pose proof (set_iter_length urls) as Hsize.
  rewrite Hurls, length_app in Hsize.
  pose proof (accepted_length (judged (requests w0) fetched)) as Hacc.
  rewrite <- (length_map fst (judged _ _)), judged_urls in Hacc.
  exists (write_index (index_entries a) w1), urls, a,
    (NEWS_URL :: map paginated_url (seq 1 m) ++ fetched).
  split_and!; [done| | |].
  - simpl. rewrite Hreq, Hreq0, <- app_assoc. done.
  - simpl. rewrite length_app, length_map, length_seq. lia.
  - simpl. rewrite length_app. lia.
Qed.

End ArchiveExact.

(** ** The further properties on test data *)

Module MoreRuns.
Import Examples MoreExamples.

#[local] Existing Instance PlainHtml.parser.
#[local] Existing Instance Urllib.lib.

(** Of the four references of the page only the article is returned, and
    it comes from the reference [/news/item]. *)
Lemma extract_article_links_exact_witness :
  extract_article_links (cfg := source_config) (Some mixed_page) =
    Ok {[ py "https://media.kpfu.ru/news/item" ]} ∧
  ∃ href, href ∈ find_all_a_href (bs_parse mixed_page) ∧
          startswith href (py "#") = false ∧
          py "https://media.kpfu.ru/news/item" =
            urljoin (@BASE_URL source_config) href.
Proof.
  assert (Hex : extract_article_links (cfg := source_config) (Some mixed_page) =
                Ok {[ py "https://media.kpfu.ru/news/item" ]})
    by (vm_compute; reflexivity).
  split; [exact Hex|].
  destruct (proj1 (extract_article_links_exact (cfg := source_config) mixed_page _
                     (py "https://media.kpfu.ru/news/item") Hex))
    as (href & Hin & Hfrag & _ & Hu & _).
  - apply elem_of_singleton_2. reflexivity.
  - exists href. split_and!; [exact Hin|exact Hfrag|exact Hu].
Defined.

(** The page and its shuffled version give the same links. *)
Lemma extract_article_links_anchor_set_witness :
  ∃ links,
    extract_article_links (cfg := source_config) (Some mixed_page) = Ok links ∧
    extract_article_links (cfg := source_config) (Some shuffled_page) = Ok links.
Proof.
  assert (H1 : extract_article_links (cfg := source_config) (Some mixed_page) =
               Ok {[ py "https://media.kpfu.ru/news/item" ]})
    by (vm_compute; reflexivity).
  assert (H2 : extract_article_links (cfg := source_config) (Some shuffled_page) =
               Ok (fold_left (extract_step (cfg := source_config))
                     (find_all_a_href (bs_parse shuffled_page)) ∅))
    by reflexivity.
  destruct (extract_article_links_anchor_set (cfg := source_config)
              mixed_page shuffled_page _ _ H1 H2) as [Heq _].
  - intros href.
    change (find_all_a_href (bs_parse mixed_page))
      with [py "#top"; py "/news/item"; py "/about"; py "/news/item"].
    change (find_all_a_href (bs_parse shuffled_page))
      with [py "/about"; py "/news/item"; py "#top"].
    rewrite !elem_of_cons, !elem_of_nil. tauto.
  - exists {[ py "https://media.kpfu.ru/news/item" ]}. split; [exact H1|].
    rewrite H2, <- Heq. reflexivity.
Defined.


(** A record with a tab in its URL. *)
Lemma index_entry_unambiguous_witness :
  index_entry 12 (py "https://media.kpfu.ru/news/a" ++ TAB ++ py "b") =
  py "12" ++ TAB ++ py "https://media.kpfu.ru/news/a" ++ TAB ++ py "b" ∧
  (12 = 12 ∧ py "https://media.kpfu.ru/news/a" ++ TAB ++ py "b" =
             py "https://media.kpfu.ru/news/a" ++ TAB ++ py "b").
Proof.
  split; [reflexivity|].
  apply (index_entry_unambiguous 12 12). reflexivity.
Defined.

(** Two records read back. *)
Lemma index_body_unambiguous_witness :
  let records := [(1, Examples.article_url 1); (2, Examples.article_url 2)] in
  records = records.
Proof.
  intros records. apply (index_body_unambiguous records records); [|reflexivity].
  apply Forall_forall. apply (bool_decide_unpack _). vm_compute. exact I.
Defined.

(** The first page file of the source. *)
Lemma page_files_never_collide_witness :
  os_path_join (@OUTPUT_DIR source_config) (page_filename 1) =
    py "crawl_output/page_0001.txt" ∧
  1 = 1.
Proof.
  split; [reflexivity|].
  destruct (page_files_never_collide (cfg := source_config) 1 1) as (_ & _ & Hinj).
  apply Hinj. reflexivity.
Defined.

(** A run without network. *)
Lemma crawl_without_network_witness :
  ∃ w',
    crawl (env := unreachable) (cfg := source_config) fresh = Ok (0, w') ∧
    requests w' =
      [py "https://media.kpfu.ru/news"; py "https://media.kpfu.ru/news?page=1"] ∧
    length (files w') = 1.
Proof.
  eexists. split.
  - apply (crawl_without_network (env := unreachable) (cfg := source_config)).
    + vm_compute. lia.
    + intros log url. reflexivity.
  - split; reflexivity.
Defined.

End MoreRuns.
